(** * eoweb: the session orchestrator ([src/client.ts]) and the NPC death
      fade ([src/render/npc-death.ts])

    A shallow embedding of the [Client] class and of [NpcDeathAnimation],
    followed by the properties of the session layer: what each method sends
    over the packet bus, which fields it leaves alone, and what happens when
    no bus has been attached.

    Conventions.
    - JavaScript numbers that hold identifiers and tick counters are
      integers; they are modelled as [Z].
    - A method of [Client] is a computation in the monad [M]: it receives the
      object ([this]), may throw, and returns the object as it left it.
    - The packet bus and the mitt emitter are collaborators of the class; the
      model keeps what the class can observe of them: the packets handed to
      [send], the handler modules registered, and the events published. *)

From Stdlib Require Import ZArith QArith Qround Lia List.
From stdpp Require Import base gmap sets list strings.

Local Open Scope Z_scope.

(** ** Types of the eolib protocol library

    The pub-file and map-info classes of eolib are opaque to the
    orchestrator: it stores them and hands them on.  Only the player
    identifier of a [CharacterMapInfo] is ever read. *)

Class Eolib : Type := {
  Eif : Type;
  Ecf : Type;
  Enf : Type;
  Esf : Type;
  Emf : Type;
  ServerSettings : Type;
  CharacterSelectionListEntry : Type;
  CharacterMapInfo : Type;
  CharacterMapInfo_playerId : CharacterMapInfo → Z;
  NpcMapInfo : Type;
  ItemMapInfo : Type;
}.

Module Direction.
Inductive t := Down | Left | Up | Right.
End Direction.

Record Coords := { Coords_x : Z; Coords_y : Z }.

(** [FileType] of eolib: the five kinds of game-data file. *)
Module FileType.
Inductive t := Emf | Eif | Enf | Esf | Ecf.

#[global] Instance eq_dec : EqDecision t.
Proof. solve_decision. Defined.
End FileType.

(** ** Outgoing packets *)

Module LoginRequestClientPacket.
Record t := { username : string; password : string }.
End LoginRequestClientPacket.

Module WelcomeRequestClientPacket.
Record t := { characterId : Z }.
End WelcomeRequestClientPacket.

Module WarpTakeClientPacket.
Record t := { sessionId : Z; mapId : Z }.
End WarpTakeClientPacket.

Module WarpAcceptClientPacket.
Record t := { sessionId : Z; mapId : Z }.
End WarpAcceptClientPacket.

Module WelcomeAgreeClientPacket.
(** The payload is a tagged union: one variant per file type, each with
    its [fileId]. *)
Inductive FileTypeData :=
| FileTypeDataEcf (fileId : Z)
| FileTypeDataEif (fileId : Z)
| FileTypeDataEnf (fileId : Z)
| FileTypeDataEsf (fileId : Z)
| FileTypeDataEmf (fileId : Z).

Definition fileId (d : FileTypeData) : Z :=
  match d with
  | FileTypeDataEcf i | FileTypeDataEif i | FileTypeDataEnf i
  | FileTypeDataEsf i | FileTypeDataEmf i => i
  end.

(** The file type a payload variant belongs to. *)
Definition variant (d : FileTypeData) : FileType.t :=
  match d with
  | FileTypeDataEcf _ => FileType.Ecf
  | FileTypeDataEif _ => FileType.Eif
  | FileTypeDataEnf _ => FileType.Enf
  | FileTypeDataEsf _ => FileType.Esf
  | FileTypeDataEmf _ => FileType.Emf
  end.

(** [fileTypeData] is unset ([None]) on a new packet; [requestFile] sets
    it in the branch of its switch that matches. *)
Record t := {
  sessionId : Z;
  fileType : FileType.t;
  fileTypeData : option FileTypeData;
}.
End WelcomeAgreeClientPacket.

Module WelcomeMsgClientPacket.
Record t := { characterId : Z; sessionId : Z }.
End WelcomeMsgClientPacket.

(** Modelled from the spec: the profile-fetch request that the handler layer
    (the handler modules are not among the sources) issues for a player
    identifier it has not seen. *)
Module ProfileFetchClientPacket.
Record t := { playerId : Z }.
End ProfileFetchClientPacket.

Inductive Packet :=
| LoginRequest (p : LoginRequestClientPacket.t)
| WelcomeRequest (p : WelcomeRequestClientPacket.t)
| WarpTake (p : WarpTakeClientPacket.t)
| WarpAccept (p : WarpAcceptClientPacket.t)
| WelcomeAgree (p : WelcomeAgreeClientPacket.t)
| WelcomeMsg (p : WelcomeMsgClientPacket.t)
| ProfileFetch (p : ProfileFetchClientPacket.t).

(** The session identifier a packet carries, when its class has the field. *)
Definition Packet_sessionId (p : Packet) : option Z :=
  match p with
  | WarpTake q => Some (WarpTakeClientPacket.sessionId q)
  | WarpAccept q => Some (WarpAcceptClientPacket.sessionId q)
  | WelcomeAgree q => Some (WelcomeAgreeClientPacket.sessionId q)
  | WelcomeMsg q => Some (WelcomeMsgClientPacket.sessionId q)
  | LoginRequest _ | WelcomeRequest _ | ProfileFetch _ => None
  end.

(** ** The packet bus

    The handler modules that [setBus] registers, in the order of the
    calls. *)
Inductive HandlerModule :=
| InitHandlers | ConnectionHandlers | LoginHandlers | WelcomeHandlers
| PlayersHandlers | AvatarHandlers | FaceHandlers | WalkHandlers
| SitHandlers | WarpHandlers | RefreshHandlers | NpcHandlers.

(** Modelled from the spec: the transport facade ([./bus] is not among the
    sources).  [send] enqueues an outgoing message and returns nothing;
    handler modules register their callbacks on the bus when it is
    attached.  The bus is described by the messages enqueued so far, oldest
    first, and the handler modules registered on it. *)
Module PacketBus.
Record t := { sent : list Packet; registered : list HandlerModule }.

Definition empty : t := {| sent := []; registered := [] |}.

Definition send (p : Packet) (b : t) : t :=
  {| sent := sent b ++ [p]; registered := registered b |}.

Definition register (h : HandlerModule) (b : t) : t :=
  {| sent := sent b; registered := registered b ++ [h] |}.
End PacketBus.

(** Modelled from the spec: the local player's [Character] ([./character] is
    not among the sources): its identifier and display data. *)
Module Character.
Record t := { id : Z; name : string }.

Definition new : t := {| id := 0; name := "" |}.
End Character.

(** ** Lifecycle state *)
Module GameState.
Inductive t := Initial | Connected | Login | LoggedIn | InGame.

Definition value (s : t) : Z :=
  match s with
  | Initial => 0 | Connected => 1 | Login => 2 | LoggedIn => 3 | InGame => 4
  end.
End GameState.

(** ** Completions of a method call *)
Inductive JsError := TypeError.

Inductive Completion (A : Type) :=
| Normal (a : A)
| Throw (e : JsError).
Arguments Normal {A} a.
Arguments Throw {A} e.

(** [NearbyInfo] of eolib: the entities in view. *)
Module NearbyInfo.
Section WithEolib.
Context `{Eolib}.

Record t := {
  characters : list CharacterMapInfo;
  npcs : list NpcMapInfo;
  items : list ItemMapInfo;
}.
End WithEolib.
End NearbyInfo.

(** The events of [ClientEvents], with their payloads. *)
Module ClientEvents.
Section WithEolib.
Context `{Eolib}.

Inductive t :=
| error (title message : string)
| debug (message : string)
| login (characters : list CharacterSelectionListEntry)
| selectCharacter
| enterGame (news : list string)
| playerWalk (playerId : Z) (direction : Direction.t) (coords : Coords)
| npcWalk (npcIndex : Z) (direction : Direction.t) (coords : Coords)
| switchMap
| refresh.

(** The keys of [ClientEvents]. *)
Inductive key :=
| KError | KDebug | KLogin | KSelectCharacter | KEnterGame
| KPlayerWalk | KNpcWalk | KSwitchMap | KRefresh.

Definition keyOf (e : t) : key :=
  match e with
  | error _ _ => KError
  | debug _ => KDebug
  | login _ => KLogin
  | selectCharacter => KSelectCharacter
  | enterGame _ => KEnterGame
  | playerWalk _ _ _ => KPlayerWalk
  | npcWalk _ _ _ => KNpcWalk
  | switchMap => KSwitchMap
  | refresh => KRefresh
  end.
End WithEolib.
End ClientEvents.

(** The mitt emitter of the client.  Its handlers are presentation code:
    they return normally and leave the orchestrator alone.  The emitter is
    described by the keys handlers were subscribed to, in the order of the
    [on] calls, and by the events published, oldest first. *)
Module Emitter.
Section WithEolib.
Context `{Eolib}.

Record t := {
  subscribed : list ClientEvents.key;
  published : list ClientEvents.t;
}.

Definition mitt : t := {| subscribed := []; published := [] |}.

Definition on (event : ClientEvents.key) (e : t) : t :=
  {| subscribed := subscribed e ++ [event]; published := published e |}.

Definition emit (event : ClientEvents.t) (e : t) : t :=
  {| subscribed := subscribed e; published := published e ++ [event] |}.
End WithEolib.
End Emitter.

(** ** The [Client] class *)
Module Client.
Section WithEolib.
Context `{Eolib}.

(** The fields of the class, in the order of their declaration.  The
    [bus] field holds the bus object itself; the class is its only writer
    here. *)
Record t := {
  emitter : Emitter.t;
  bus : option PacketBus.t;
  playerId : Z;
  character : Character.t;
  mapId : Z;
  warpMapId : Z;
  warpQueued : bool;
  state : GameState.t;
  sessionId : Z;
  serverSettings : option ServerSettings;
  motd : string;
  nearby : NearbyInfo.t;
  eif : option Eif;
  ecf : option Ecf;
  enf : option Enf;
  esf : option Esf;
  map : option Emf;
  downloadQueue : list (FileType.t * Z);
  unknownPlayerIds : gset Z;
}.

(** Field assignments [this.f = v]. *)
Definition set_emitter (v : Emitter.t) (c : t) : t :=
  {| emitter := v; bus := bus c; playerId := playerId c;
     character := character c; mapId := mapId c; warpMapId := warpMapId c;
     warpQueued := warpQueued c; state := state c; sessionId := sessionId c;
     serverSettings := serverSettings c; motd := motd c; nearby := nearby c;
     eif := eif c; ecf := ecf c; enf := enf c; esf := esf c; map := map c;
     downloadQueue := downloadQueue c;
     unknownPlayerIds := unknownPlayerIds c |}.

Definition set_bus (v : option PacketBus.t) (c : t) : t :=
  {| emitter := emitter c; bus := v; playerId := playerId c;
     character := character c; mapId := mapId c; warpMapId := warpMapId c;
     warpQueued := warpQueued c; state := state c; sessionId := sessionId c;
     serverSettings := serverSettings c; motd := motd c; nearby := nearby c;
     eif := eif c; ecf := ecf c; enf := enf c; esf := esf c; map := map c;
     downloadQueue := downloadQueue c;
     unknownPlayerIds := unknownPlayerIds c |}.

Definition set_warpQueued (v : bool) (c : t) : t :=
  {| emitter := emitter c; bus := bus c; playerId := playerId c;
     character := character c; mapId := mapId c; warpMapId := warpMapId c;
     warpQueued := v; state := state c; sessionId := sessionId c;
     serverSettings := serverSettings c; motd := motd c; nearby := nearby c;
     eif := eif c; ecf := ecf c; enf := enf c; esf := esf c; map := map c;
     downloadQueue := downloadQueue c;
     unknownPlayerIds := unknownPlayerIds c |}.

Definition set_nearby (v : NearbyInfo.t) (c : t) : t :=
  {| emitter := emitter c; bus := bus c; playerId := playerId c;
     character := character c; mapId := mapId c; warpMapId := warpMapId c;
     warpQueued := warpQueued c; state := state c; sessionId := sessionId c;
     serverSettings := serverSettings c; motd := motd c; nearby := v;
     eif := eif c; ecf := ecf c; enf := enf c; esf := esf c; map := map c;
     downloadQueue := downloadQueue c;
     unknownPlayerIds := unknownPlayerIds c |}.

Definition set_eif (v : option Eif) (c : t) : t :=
  {| emitter := emitter c; bus := bus c; playerId := playerId c;
     character := character c; mapId := mapId c; warpMapId := warpMapId c;
     warpQueued := warpQueued c; state := state c; sessionId := sessionId c;
     serverSettings := serverSettings c; motd := motd c; nearby := nearby c;
     eif := v; ecf := ecf c; enf := enf c; esf := esf c; map := map c;
     downloadQueue := downloadQueue c;
     unknownPlayerIds := unknownPlayerIds c |}.

Definition set_ecf (v : option Ecf) (c : t) : t :=
  {| emitter := emitter c; bus := bus c; playerId := playerId c;
     character := character c; mapId := mapId c; warpMapId := warpMapId c;
     warpQueued := warpQueued c; state := state c; sessionId := sessionId c;
     serverSettings := serverSettings c; motd := motd c; nearby := nearby c;
     eif := eif c; ecf := v; enf := enf c; esf := esf c; map := map c;
     downloadQueue := downloadQueue c;
     unknownPlayerIds := unknownPlayerIds c |}.

Definition set_enf (v : option Enf) (c : t) : t :=
  {| emitter := emitter c; bus := bus c; playerId := playerId c;
     character := character c; mapId := mapId c; warpMapId := warpMapId c;
     warpQueued := warpQueued c; state := state c; sessionId := sessionId c;
     serverSettings := serverSettings c; motd := motd c; nearby := nearby c;
     eif := eif c; ecf := ecf c; enf := v; esf := esf c; map := map c;
     downloadQueue := downloadQueue c;
     unknownPlayerIds := unknownPlayerIds c |}.

Definition set_esf (v : option Esf) (c : t) : t :=
  {| emitter := emitter c; bus := bus c; playerId := playerId c;
     character := character c; mapId := mapId c; warpMapId := warpMapId c;
     warpQueued := warpQueued c; state := state c; sessionId := sessionId c;
     serverSettings := serverSettings c; motd := motd c; nearby := nearby c;
     eif := eif c; ecf := ecf c; enf := enf c; esf := v; map := map c;
     downloadQueue := downloadQueue c;
     unknownPlayerIds := unknownPlayerIds c |}.

Definition set_map (v : option Emf) (c : t) : t :=
  {| emitter := emitter c; bus := bus c; playerId := playerId c;
     character := character c; mapId := mapId c; warpMapId := warpMapId c;
     warpQueued := warpQueued c; state := state c; sessionId := sessionId c;
     serverSettings := serverSettings c; motd := motd c; nearby := nearby c;
     eif := eif c; ecf := ecf c; enf := enf c; esf := esf c; map := v;
     downloadQueue := downloadQueue c;
     unknownPlayerIds := unknownPlayerIds c |}.

Definition set_unknownPlayerIds (v : gset Z) (c : t) : t :=
  {| emitter := emitter c; bus := bus c; playerId := playerId c;
     character := character c; mapId := mapId c; warpMapId := warpMapId c;
     warpQueued := warpQueued c; state := state c; sessionId := sessionId c;
     serverSettings := serverSettings c; motd := motd c; nearby := nearby c;
     eif := eif c; ecf := ecf c; enf := enf c; esf := esf c; map := map c;
     downloadQueue := downloadQueue c;
     unknownPlayerIds := v |}.

(** *** The method monad: state passing over [this], with exceptions.
    A [Throw] keeps the object as the method left it when it threw. *)
Definition M (A : Type) : Type := t → Completion A * t.

#[global] Instance M_ret : MRet M := λ A a this, (Normal a, this).

#[global] Instance M_bind : MBind M := λ A B k m this,
  match m this with
  | (Normal a, this') => k a this'
  | (Throw e, this') => (Throw e, this')
  end.

Definition modify (f : t → t) : M unit := λ this, (Normal tt, f this).

(** [this.bus.send(packet)]: reading [send] off a null [bus] throws a
    [TypeError]; otherwise the packet is enqueued on the bus. *)
Definition bus_send (packet : Packet) : M unit := λ this,
  match bus this with
  | None => (Throw TypeError, this)
  | Some b => (Normal tt, set_bus (Some (PacketBus.send packet b)) this)
  end.

(** The constructor.  The four pub-file loads it starts resolve later,
    outside the constructor; the slots are empty when it returns. *)
Definition new : t :=
  {| emitter := Emitter.mitt; bus := None; playerId := 0;
     character := Character.new; mapId := 5; warpMapId := 0;
     warpQueued := false; state := GameState.Initial; sessionId := 0;
     serverSettings := None; motd := "";
     nearby := {| NearbyInfo.characters := []; NearbyInfo.npcs := [];
                  NearbyInfo.items := [] |};
     eif := None; ecf := None; enf := None; esf := None; map := None;
     downloadQueue := []; unknownPlayerIds := ∅ |}.

(** The callbacks of the four loads the constructor starts, run when
    the load resolves. *)
Definition getEif_then (v : Eif) : M unit := modify (set_eif (Some v)).
Definition getEcf_then (v : Ecf) : M unit := modify (set_ecf (Some v)).
Definition getEnf_then (v : Enf) : M unit := modify (set_enf (Some v)).
Definition getEsf_then (v : Esf) : M unit := modify (set_esf (Some v)).

(** [loadMap], at the point its awaited load resolves with [emf]. *)
Definition loadMap_resolved (emf : Emf) : M unit :=
  modify (set_map (Some emf)).

Definition emit (event : ClientEvents.t) : M unit :=
  modify (λ this, set_emitter (Emitter.emit event (emitter this)) this).

(** [on]: the handler is subscribed to the event. *)
Definition on (event : ClientEvents.key) : M unit :=
  modify (λ this, set_emitter (Emitter.on event (emitter this)) this).

(** [showError(message, title = '')]: a title left out is empty. *)
Definition showError (message : string) (title : option string) : M unit :=
  emit (ClientEvents.error (default "" title) message).

(** Modelled from the spec: a [register...Handlers(this)] call of a handler
    module (the modules are not among the sources): it registers the
    module's callbacks on the bus of the client it is passed. *)
Definition registerHandlers (h : HandlerModule) : M unit := λ this,
  match bus this with
  | None => (Throw TypeError, this)
  | Some b => (Normal tt, set_bus (Some (PacketBus.register h b)) this)
  end.

Definition setBus (b : PacketBus.t) : M unit :=
  modify (set_bus (Some b));;
  registerHandlers InitHandlers;;
  registerHandlers ConnectionHandlers;;
  registerHandlers LoginHandlers;;
  registerHandlers WelcomeHandlers;;
  registerHandlers PlayersHandlers;;
  registerHandlers AvatarHandlers;;
  registerHandlers FaceHandlers;;
  registerHandlers WalkHandlers;;
  registerHandlers SitHandlers;;
  registerHandlers WarpHandlers;;
  registerHandlers RefreshHandlers;;
  registerHandlers NpcHandlers.

Definition login (username password : string) : M unit :=
  let packet :=
    {| LoginRequestClientPacket.username := username;
       LoginRequestClientPacket.password := password |} in
  bus_send (LoginRequest packet).

Definition selectCharacter (characterId : Z) : M unit :=
  let packet :=
    {| WelcomeRequestClientPacket.characterId := characterId |} in
  bus_send (WelcomeRequest packet).

Definition requestWarpMap (id : Z) : M unit := λ this,
  let packet :=
    {| WarpTakeClientPacket.sessionId := sessionId this;
       WarpTakeClientPacket.mapId := id |} in
  bus_send (WarpTake packet) this.

Definition acceptWarp : M unit := λ this,
  let packet :=
    {| WarpAcceptClientPacket.sessionId := sessionId this;
       WarpAcceptClientPacket.mapId := warpMapId this |} in
  (bus_send (WarpAccept packet);;
   modify (set_warpQueued false)) this.

(** The switch of [requestFile]: the payload variant for the file type,
    and the debug line of that branch. *)
Definition requestFile_case (fileType : FileType.t) (id : Z)
  : M (option WelcomeAgreeClientPacket.FileTypeData) :=
  match fileType with
  | FileType.Ecf =>
      emit (ClientEvents.debug "Loading classes..");;
      mret (Some (WelcomeAgreeClientPacket.FileTypeDataEcf id))
  | FileType.Eif =>
      emit (ClientEvents.debug "Loading items..");;
      mret (Some (WelcomeAgreeClientPacket.FileTypeDataEif id))
  | FileType.Enf =>
      emit (ClientEvents.debug "Loading NPCs..");;
      mret (Some (WelcomeAgreeClientPacket.FileTypeDataEnf id))
  | FileType.Esf =>
      emit (ClientEvents.debug "Loading spells..");;
      mret (Some (WelcomeAgreeClientPacket.FileTypeDataEsf id))
  | FileType.Emf =>
      emit (ClientEvents.debug "Loading map..");;
      mret (Some (WelcomeAgreeClientPacket.FileTypeDataEmf id))
  end.

Definition requestFile (fileType : FileType.t) (id : Z) : M unit := λ this,
  let sessionId_ := sessionId this in
  (fileTypeData ← requestFile_case fileType id;
   bus_send (WelcomeAgree
     {| WelcomeAgreeClientPacket.sessionId := sessionId_;
        WelcomeAgreeClientPacket.fileType := fileType;
        WelcomeAgreeClientPacket.fileTypeData := fileTypeData |})) this.

Definition enterGame : M unit := λ this,
  let packet :=
    {| WelcomeMsgClientPacket.characterId := Character.id (character this);
       WelcomeMsgClientPacket.sessionId := sessionId this |} in
  bus_send (WelcomeMsg packet) this.

(** *** Observations *)

(** The packets enqueued on the client's bus so far (none without a
    bus). *)
Definition outbox (this : t) : list Packet :=
  match bus this with
  | Some b => PacketBus.sent b
  | None => []
  end.

(** The events published on the client's emitter so far. *)
Definition publishedEvents (this : t) : list ClientEvents.t :=
  Emitter.published (emitter this).

(** *** Calls from the user interface *)
Inductive Call :=
| CallLogin (username password : string)
| CallSelectCharacter (characterId : Z)
| CallRequestWarpMap (id : Z)
| CallAcceptWarp
| CallRequestFile (fileType : FileType.t) (id : Z)
| CallEnterGame.

Definition invoke (k : Call) : M unit :=
  match k with
  | CallLogin u p => login u p
  | CallSelectCharacter i => selectCharacter i
  | CallRequestWarpMap i => requestWarpMap i
  | CallAcceptWarp => acceptWarp
  | CallRequestFile f i => requestFile f i
  | CallEnterGame => enterGame
  end.

(** The calls whose packet has a [sessionId] field. *)
Definition sessionScoped (k : Call) : bool :=
  match k with
  | CallRequestWarpMap _ | CallAcceptWarp
  | CallRequestFile _ _ | CallEnterGame => true
  | CallLogin _ _ | CallSelectCharacter _ => false
  end.

(** A caller that makes the calls one after the other, catching what each
    throws: the completions in order, and the client at the end. *)
Fixpoint invokeAll (ks : list Call) (this : t)
  : list (Completion unit) * t :=
  match ks with
  | [] => ([], this)
  | k :: ks' =>
      let '(r, this') := invoke k this in
      let '(rs, this'') := invokeAll ks' this' in
      (r :: rs, this'')
  end.
End WithEolib.
End Client.

(** ** Entity discovery: the handler layer's part *)
Module Discovery.
Section WithEolib.
Context `{Eolib}.

Import Client.

(** Modelled from the spec: whether a player identifier is present in
    Character or NearbyInfo (the handler modules that decide it are not
    among the sources): it is the local character's, or that of one of the
    characters in view. *)
Definition isKnown (playerId : Z) (this : Client.t) : bool :=
  (playerId =? Character.id (character this))
  || existsb (λ ch, CharacterMapInfo_playerId ch =? playerId)
       (NearbyInfo.characters (nearby this)).

(** Modelled from the spec: the handling of a nearby-update notification
    that references [playerId] (the handler is not among the sources).
    An identifier that is not known is added to [unknownPlayerIds] and its
    profile is requested, after checking that it is not a member of the set
    already.  (What the notification changes for a player who is known is
    the field-level update of the handler, outside the orchestrator.) *)
Definition handleNearbyUpdate (playerId : Z) : M unit := λ this,
  if isKnown playerId this then (Normal tt, this)
  else if decide (playerId ∈ unknownPlayerIds this) then (Normal tt, this)
  else
    (modify (set_unknownPlayerIds ({[playerId]} ∪ unknownPlayerIds this));;
     bus_send (ProfileFetch {| ProfileFetchClientPacket.playerId := playerId |}))
      this.

(** Modelled from the spec: the receipt of a player's profile (the handler
    is not among the sources): the identifier is removed from
    [unknownPlayerIds] and the entity is merged into [nearby.characters],
    replacing an entry of the same player. *)
Definition handleProfile (info : CharacterMapInfo) : M unit := λ this,
  let playerId := CharacterMapInfo_playerId info in
  let others :=
    List.filter (λ ch, negb (CharacterMapInfo_playerId ch =? playerId))
      (NearbyInfo.characters (nearby this)) in
  (modify (set_unknownPlayerIds (unknownPlayerIds this ∖ {[playerId]}));;
   modify (set_nearby
     {| NearbyInfo.characters := others ++ [info];
        NearbyInfo.npcs := NearbyInfo.npcs (nearby this);
        NearbyInfo.items := NearbyInfo.items (nearby this) |})) this.

(** Inbound messages are dispatched one at a time, each handler running to
    completion before the next message is taken. *)
Definition deliverNearbyUpdates (playerIds : list Z) (this : Client.t)
  : Client.t :=
  foldl (λ c playerId, snd (handleNearbyUpdate playerId c)) this playerIds.

(** The number of profile-fetch requests for [playerId] among packets. *)
Definition isFetchOf (playerId : Z) (p : Packet) : bool :=
  match p with
  | ProfileFetch q => ProfileFetchClientPacket.playerId q =? playerId
  | _ => false
  end.

Definition fetchCount (playerId : Z) (ps : list Packet) : nat :=
  length (List.filter (isFetchOf playerId) ps).
End WithEolib.
End Discovery.

(** ** The NPC death animation ([src/render/npc-death.ts]) *)
Module NpcDeathAnimation.
Section WithConsts.
(** [NPC_DEATH_TICKS] of [../consts], which is not among the sources: the
    length of the fade in ticks. *)
Variable NPC_DEATH_TICKS : Z.

(** The fields of the base class [NpcAnimation] that the subclass uses. *)
Record t := { ticks : Z; animationFrame : Z }.

(** The object as the base-class constructor leaves it. *)
Variable super : t.

Definition new : t :=
  {| ticks := NPC_DEATH_TICKS; animationFrame := animationFrame super |}.

Definition tick (this : t) : t :=
  {| ticks := Z.max (ticks this - 1) 0;
     animationFrame := animationFrame this |}.

(** [n] calls of [tick]. *)
Definition ticked (n : nat) (this : t) : t := Nat.iter n tick this.

(** The opacity [render] sets before drawing the sprite:
    [ctx.globalAlpha = this.ticks / NPC_DEATH_TICKS].  Both operands are
    integers and the quotient is taken as the exact rational; the double
    that JavaScript computes is this rational rounded to the nearest
    double, and 0 and 1 are doubles, so a bound by 0 or by 1 on the
    rational is a bound on the double. *)
Definition globalAlpha (this : t) : Q :=
  (inject_Z (ticks this) / inject_Z NPC_DEATH_TICKS)%Q.

(** [render], as far as the opacity goes: nothing is drawn when the bitmap
    is not loaded yet; otherwise the sprite is drawn with [globalAlpha]. *)
Definition render (bmp : bool) (this : t) : option Q :=
  if bmp then Some (globalAlpha this) else None.
End WithConsts.
End NpcDeathAnimation.

(** ** Drawing the NPC death animation ([render] of
       [src/render/npc-death.ts], in full)

    JavaScript numbers that are coordinates, sizes and offsets are taken as
    exact rationals, [Math.floor] as [Qfloor]; on whole and half pixels the
    doubles of the source compute the same values.  What [render] does to
    the canvas and to the collision table is the sequence of its effects. *)
#[global] Instance Direction_eq_dec : EqDecision Direction.t.
Proof. solve_decision. Defined.

Module NpcDeathRender.
Section WithCollaborators.
(** [NPC_DEATH_TICKS] of [../consts]; [GAME_WIDTH], [HALF_GAME_WIDTH] and
    [HALF_GAME_HEIGHT] of [../game-state]. *)
Variable NPC_DEATH_TICKS : Z.
Variables GAME_WIDTH HALF_GAME_WIDTH HALF_GAME_HEIGHT : Q.

(** [GfxType] of [../gfx] and its member [GfxType.NPC]; the bitmaps it
    serves. *)
Variable GfxType : Type.
Variable GfxType_NPC : GfxType.
Variable Bitmap : Type.

Record Vector2 := { x : Q; y : Q }.

(** A frame of a sprite sheet, as [getFrameById] returns it. *)
Record Frame := { frame_x : Q; frame_y : Q; w : Q; h : Q }.

(** [new Rectangle(position, width, height)] of [../collision]. *)
Record Rectangle := {
  position : Z * Z;
  width : Q;
  height : Q;
}.

(** The fields of eolib's [NpcMapInfo] that [render] reads. *)
Record NpcMapInfo := {
  index : Z;
  coords : Coords;
  direction : Direction.t;
}.

(** The fields of [NPCMetadata] that [render] reads. *)
Record NPCMetadata := {
  xOffset : Q;
  yOffset : Q;
  xOffsetAttack : Q;
  yOffsetAttack : Q;
}.

(** [getBitmapById] (null while the bitmap is not loaded) and
    [getFrameById] of [../gfx]; [isoToScreen] of [../utils]. *)
Variable getBitmapById : GfxType → Z → option Bitmap.
Variable getFrameById : GfxType → Z → Frame.
Variable isoToScreen : Coords → Vector2.

(** What [render] does, in order: calls on the canvas context, and the
    call of [setNpcRectangle]. *)
Inductive Effect :=
| ctx_save
| ctx_translate (tx ty : Q)
| ctx_scale (sx sy : Q)
| ctx_globalAlpha (alpha : Q)
| ctx_drawImage (bmp : Bitmap) (sx sy sw sh : Q) (dx dy : Z) (dw dh : Q)
| ctx_restore
| setNpcRectangle (index : Z) (rect : Rectangle).

Definition includes (ds : list Direction.t) (d : Direction.t) : bool :=
  bool_decide (d ∈ ds).

Definition downRight (npc : NpcMapInfo) : bool :=
  includes [Direction.Down; Direction.Right] (direction npc).

Definition frame (npc : NpcMapInfo) : Z :=
  if downRight npc then 1 else 3.

(** The identifier [render] asks the bitmap and the frame for. *)
Definition bitmapId (graphicId : Z) (npc : NpcMapInfo) : Z :=
  (graphicId - 1) * 40 + frame npc.

Definition mirrored (npc : NpcMapInfo) : bool :=
  includes [Direction.Right; Direction.Up] (direction npc).

Definition screenX (renderFrame : Frame) (npc : NpcMapInfo)
    (playerScreen : Vector2) : Z :=
  Qfloor (x (isoToScreen (coords npc)) - w renderFrame / 2
          - x playerScreen + HALF_GAME_WIDTH)%Q.

Definition screenY (renderFrame : Frame) (npc : NpcMapInfo)
    (playerScreen : Vector2) : Q :=
  (y (isoToScreen (coords npc)) - (h renderFrame - 23)
   - y playerScreen + HALF_GAME_HEIGHT)%Q.

(** [metaOffset]: the offsets of the metadata, to which the attack offsets
    are added when [animationFrame] is not zero. *)
Definition metaOffset (meta : NPCMetadata) (this : NpcDeathAnimation.t)
  : Vector2 :=
  let metaOffset := {| x := xOffset meta; y := yOffset meta |} in
  if bool_decide (NpcDeathAnimation.animationFrame this ≠ 0)
  then {| x := (x metaOffset + xOffsetAttack meta)%Q;
          y := (y metaOffset + yOffsetAttack meta)%Q |}
  else metaOffset.

Definition drawX (renderFrame : Frame) (npc : NpcMapInfo)
    (meta : NPCMetadata) (playerScreen : Vector2)
    (this : NpcDeathAnimation.t) : Z :=
  let screenX := screenX renderFrame npc playerScreen in
  Qfloor
    (if mirrored npc
     then (GAME_WIDTH - inject_Z screenX - w renderFrame
           + x (metaOffset meta this))%Q
     else (inject_Z screenX + x (metaOffset meta this))%Q).

Definition drawY (renderFrame : Frame) (npc : NpcMapInfo)
    (meta : NPCMetadata) (playerScreen : Vector2)
    (this : NpcDeathAnimation.t) : Z :=
  Qfloor (screenY renderFrame npc playerScreen - y (metaOffset meta this))%Q.

Definition render (graphicId : Z) (npc : NpcMapInfo) (meta : NPCMetadata)
    (playerScreen : Vector2) (this : NpcDeathAnimation.t) : list Effect :=
  match getBitmapById GfxType_NPC (bitmapId graphicId npc) with
  | None => []
  | Some bmp =>
      let renderFrame := getFrameById GfxType_NPC (bitmapId graphicId npc) in
      let screenX := screenX renderFrame npc playerScreen in
      let drawX := drawX renderFrame npc meta playerScreen this in
      let drawY := drawY renderFrame npc meta playerScreen this in
      (if mirrored npc
       then [ctx_save; ctx_translate GAME_WIDTH 0; ctx_scale (-1) 1]
       else [])
      ++ [ctx_globalAlpha
            (NpcDeathAnimation.globalAlpha NPC_DEATH_TICKS this);
          ctx_drawImage bmp
            (frame_x renderFrame) (frame_y renderFrame)
            (w renderFrame) (h renderFrame)
            drawX drawY (w renderFrame) (h renderFrame);
          ctx_globalAlpha 1;
          setNpcRectangle (index npc)
            {| position := (screenX, drawY);
               width := w renderFrame; height := h renderFrame |}]
      ++ (if mirrored npc then [ctx_restore] else [])
  end.

(** *** The drawing state of the canvas

    What a 2D context keeps of the drawing state that [render] touches:
    the opacity, the transformations applied so far, and the states saved.
    [save] pushes the current state, [restore] pops it back (and does
    nothing when none is saved). *)
Inductive Transformation :=
| Translate (tx ty : Q)
| Scale (sx sy : Q).

Record Canvas := {
  globalAlpha : Q;
  transform : list Transformation;
  saved : list (Q * list Transformation);
}.

Definition apply (cv : Canvas) (e : Effect) : Canvas :=
  match e with
  | ctx_save =>
      {| globalAlpha := globalAlpha cv; transform := transform cv;
         saved := (globalAlpha cv, transform cv) :: saved cv |}
  | ctx_restore =>
      match saved cv with
      | [] => cv
      | (a, t) :: rest =>
          {| globalAlpha := a; transform := t; saved := rest |}
      end
  | ctx_translate tx ty =>
      {| globalAlpha := globalAlpha cv;
         transform := transform cv ++ [Translate tx ty];
         saved := saved cv |}
  | ctx_scale sx sy =>
      {| globalAlpha := globalAlpha cv;
         transform := transform cv ++ [Scale sx sy];
         saved := saved cv |}
  | ctx_globalAlpha a =>
      {| globalAlpha := a; transform := transform cv; saved := saved cv |}
  | ctx_drawImage _ _ _ _ _ _ _ _ _ => cv
  | setNpcRectangle _ _ => cv
  end.

(** The canvas after a sequence of effects. *)
Definition run (es : list Effect) (cv : Canvas) : Canvas :=
  foldl apply cv es.

(** The images drawn by a sequence of effects, each with its destination
    and the opacity and transformations in force when it is drawn. *)
Fixpoint drawn (es : list Effect) (cv : Canvas)
  : list (Bitmap * (Z * Z) * Q * list Transformation) :=
  match es with
  | [] => []
  | e :: es' =>
      match e with
      | ctx_drawImage bmp _ _ _ _ dx dy _ _ =>
          [(bmp, (dx, dy), globalAlpha cv, transform cv)]
      | _ => []
      end ++ drawn es' (apply cv e)
  end.

(** The collision rectangles registered by a sequence of effects. *)
Definition rectangles (es : list Effect) : list (Z * Rectangle) :=
  flat_map (λ e, match e with
                 | setNpcRectangle i r => [(i, r)]
                 | _ => []
                 end) es.
End WithCollaborators.

Arguments run {Bitmap} es cv.
Arguments drawn {Bitmap} es cv.
Arguments rectangles {Bitmap} es.
End NpcDeathRender.

(** ** Sequences of operations on a client

    What a client goes through between two inbound messages: calls from the
    user interface, errors shown, events emitted, handlers subscribed, and
    the loads of the constructor and of [loadMap] resolving.  [setBus] is
    the one method left out: it is treated on its own. *)
Module Run.
Section WithEolib.
Context `{Eolib}.

Import Client.

(** A load that resolves: the four of the constructor and that of
    [loadMap]. *)
Inductive Resolved :=
| ResolvedEif (v : Eif)
| ResolvedEcf (v : Ecf)
| ResolvedEnf (v : Enf)
| ResolvedEsf (v : Esf)
| ResolvedEmf (v : Emf).

Definition resolve (r : Resolved) : M unit :=
  match r with
  | ResolvedEif v => getEif_then v
  | ResolvedEcf v => getEcf_then v
  | ResolvedEnf v => getEnf_then v
  | ResolvedEsf v => getEsf_then v
  | ResolvedEmf v => loadMap_resolved v
  end.

(** The slot a load fills. *)
Definition slot (r : Resolved) : FileType.t :=
  match r with
  | ResolvedEif _ => FileType.Eif
  | ResolvedEcf _ => FileType.Ecf
  | ResolvedEnf _ => FileType.Enf
  | ResolvedEsf _ => FileType.Esf
  | ResolvedEmf _ => FileType.Emf
  end.

Inductive Op :=
| OpCall (k : Call)
| OpShowError (message : string) (title : option string)
| OpEmit (event : ClientEvents.t)
| OpOn (event : ClientEvents.key)
| OpResolved (r : Resolved).

Definition perform (o : Op) : M unit :=
  match o with
  | OpCall k => invoke k
  | OpShowError message title => showError message title
  | OpEmit event => emit event
  | OpOn event => on event
  | OpResolved r => resolve r
  end.

(** The operations one after the other, whoever makes them catching what
    each throws: the completions in order, and the client at the end. *)
Fixpoint performAll (ops : list Op) (this : Client.t)
  : list (Completion unit) * Client.t :=
  match ops with
  | [] => ([], this)
  | o :: ops' =>
      let '(r, this') := perform o this in
      let '(rs, this'') := performAll ops' this' in
      (r :: rs, this'')
  end.

(** *** What a sequence is expected to send and to publish *)

Definition payloadFor (fileType : FileType.t) (id : Z)
  : WelcomeAgreeClientPacket.FileTypeData :=
  match fileType with
  | FileType.Ecf => WelcomeAgreeClientPacket.FileTypeDataEcf id
  | FileType.Eif => WelcomeAgreeClientPacket.FileTypeDataEif id
  | FileType.Enf => WelcomeAgreeClientPacket.FileTypeDataEnf id
  | FileType.Esf => WelcomeAgreeClientPacket.FileTypeDataEsf id
  | FileType.Emf => WelcomeAgreeClientPacket.FileTypeDataEmf id
  end.

(** The packet of a call made on client [c]. *)
Definition packetFor (c : Client.t) (k : Call) : Packet :=
  match k with
  | CallLogin u p =>
      LoginRequest {| LoginRequestClientPacket.username := u;
                      LoginRequestClientPacket.password := p |}
  | CallSelectCharacter i =>
      WelcomeRequest {| WelcomeRequestClientPacket.characterId := i |}
  | CallRequestWarpMap i =>
      WarpTake {| WarpTakeClientPacket.sessionId := sessionId c;
                  WarpTakeClientPacket.mapId := i |}
  | CallAcceptWarp =>
      WarpAccept {| WarpAcceptClientPacket.sessionId := sessionId c;
                    WarpAcceptClientPacket.mapId := warpMapId c |}
  | CallRequestFile f i =>
      WelcomeAgree
        {| WelcomeAgreeClientPacket.sessionId := sessionId c;
           WelcomeAgreeClientPacket.fileType := f;
           WelcomeAgreeClientPacket.fileTypeData := Some (payloadFor f i) |}
  | CallEnterGame =>
      WelcomeMsg
        {| WelcomeMsgClientPacket.characterId := Character.id (character c);
           WelcomeMsgClientPacket.sessionId := sessionId c |}
  end.

Definition packetsOf (c : Client.t) (o : Op) : list Packet :=
  match o with
  | OpCall k => [packetFor c k]
  | _ => []
  end.

(** The progress line of a file type. *)
Definition progressLine (fileType : FileType.t) : string :=
  match fileType with
  | FileType.Ecf => "Loading classes.."
  | FileType.Eif => "Loading items.."
  | FileType.Enf => "Loading NPCs.."
  | FileType.Esf => "Loading spells.."
  | FileType.Emf => "Loading map.."
  end.

Definition eventsOf (o : Op) : list ClientEvents.t :=
  match o with
  | OpCall (CallRequestFile f _) => [ClientEvents.debug (progressLine f)]
  | OpShowError message title =>
      [ClientEvents.error (default "" title) message]
  | OpEmit event => [event]
  | _ => []
  end.

Definition subscriptionsOf (o : Op) : list ClientEvents.key :=
  match o with
  | OpOn event => [event]
  | _ => []
  end.

Definition isCall (o : Op) : bool :=
  match o with
  | OpCall _ => true
  | _ => false
  end.

Definition isAcceptWarp (o : Op) : bool :=
  match o with
  | OpCall CallAcceptWarp => true
  | _ => false
  end.

(** The fields that the handler layer owns: the lifecycle and the world
    around the player. *)
Definition handlerOwned (c : Client.t) :=
  (state c, sessionId c, playerId c, character c, mapId c, warpMapId c,
   serverSettings c, motd c, nearby c, downloadQueue c, unknownPlayerIds c).

(** The slots the loads fill. *)
Definition loaded (c : Client.t) :=
  (eif c, ecf c, enf c, esf c, map c).
End WithEolib.
End Run.

(** ** Vocabulary of the statements *)

(** The resource categories, and the category each file type holds. *)
Inductive ResourceKind := Class | Item | Npc | Spell | Map.

Definition resourceKind (fileType : FileType.t) : ResourceKind :=
  match fileType with
  | FileType.Ecf => Class
  | FileType.Eif => Item
  | FileType.Enf => Npc
  | FileType.Esf => Spell
  | FileType.Emf => Map
  end.

(** The word by which a progress line names a category. *)
Definition categoryWord (k : ResourceKind) : string :=
  match k with
  | Class => "class"
  | Item => "item"
  | Npc => "NPC"
  | Spell => "spell"
  | Map => "map"
  end.

(** Two clients that agree on every field but [bus]. *)
Definition sameButBus `{Eolib} (c c' : Client.t) : Prop :=
  c' = Client.set_bus (Client.bus c') c.

(** Two clients that agree on every field but [bus] and [warpQueued]. *)
Definition sameButBusAndWarpQueued `{Eolib} (c c' : Client.t) : Prop :=
  c' = Client.set_warpQueued (Client.warpQueued c')
         (Client.set_bus (Client.bus c') c).

(** ** Concrete data for the examples *)

Definition sampleEolib : Eolib :=
  {| Eif := unit; Ecf := unit; Enf := unit; Esf := unit; Emf := unit;
     ServerSettings := unit; CharacterSelectionListEntry := string;
     CharacterMapInfo := Z; CharacterMapInfo_playerId := λ playerId, playerId;
     NpcMapInfo := unit; ItemMapInfo := unit |}.

(** A new client. *)
Definition fresh : @Client.t sampleEolib := Client.new.

(** A new client to which an empty bus has been attached. *)
Definition attached : @Client.t sampleEolib :=
  snd (Client.setBus PacketBus.empty fresh).

(** The attached client after the server has accepted a warp to map 7. *)
Definition warpPending : @Client.t sampleEolib :=
  Client.set_warpQueued true
    {| Client.emitter := Client.emitter attached;
       Client.bus := Client.bus attached;
       Client.playerId := 12;
       Client.character := {| Character.id := 3; Character.name := "bob" |};
       Client.mapId := 5; Client.warpMapId := 7; Client.warpQueued := false;
       Client.state := GameState.InGame; Client.sessionId := 321;
       Client.serverSettings := None; Client.motd := "";
       Client.nearby := Client.nearby attached;
       Client.eif := None; Client.ecf := None; Client.enf := None;
       Client.esf := None; Client.map := None;
       Client.downloadQueue := []; Client.unknownPlayerIds := ∅ |}.

(** The same client once that warp has been accepted: none is pending. *)
Definition idle : @Client.t sampleEolib :=
  Client.set_warpQueued false warpPending.

(** A new client, never given a bus, on which a warp is marked pending. *)
Definition pendingWithoutBus : @Client.t sampleEolib :=
  Client.set_warpQueued true fresh.

(** A death animation whose fade lasts four ticks. *)
Definition sampleSuper : NpcDeathAnimation.t :=
  {| NpcDeathAnimation.ticks := 0; NpcDeathAnimation.animationFrame := 0 |}.

Definition sampleDeath : NpcDeathAnimation.t :=
  NpcDeathAnimation.new 4 sampleSuper.

(** A frame 33 pixels wide and 50 high, at the corner of its sheet. *)
Definition sampleFrame : NpcDeathRender.Frame :=
  {| NpcDeathRender.frame_x := 0; NpcDeathRender.frame_y := 0;
     NpcDeathRender.w := 33; NpcDeathRender.h := 50 |}.

(** An NPC on tile (3, 1), facing right. *)
Definition sampleNpc : NpcDeathRender.NpcMapInfo :=
  {| NpcDeathRender.index := 2;
     NpcDeathRender.coords := {| Coords_x := 3; Coords_y := 1 |};
     NpcDeathRender.direction := Direction.Right |}.

Definition sampleMeta : NpcDeathRender.NPCMetadata :=
  {| NpcDeathRender.xOffset := 4; NpcDeathRender.yOffset := 6;
     NpcDeathRender.xOffsetAttack := 1; NpcDeathRender.yOffsetAttack := 2 |}.

(** Two NPCs of one graphic, one facing down, one facing left. *)
Definition npcFacingDown : NpcDeathRender.NpcMapInfo :=
  {| NpcDeathRender.index := 3;
     NpcDeathRender.coords := {| Coords_x := 5; Coords_y := 2 |};
     NpcDeathRender.direction := Direction.Down |}.

Definition npcFacingLeft : NpcDeathRender.NpcMapInfo :=
  {| NpcDeathRender.index := 4;
     NpcDeathRender.coords := {| Coords_x := 6; Coords_y := 2 |};
     NpcDeathRender.direction := Direction.Left |}.

(** A projection of tiles 64 pixels wide and 32 high. *)
Definition sampleIsoToScreen (c : Coords) : NpcDeathRender.Vector2 :=
  {| NpcDeathRender.x := inject_Z ((Coords_x c - Coords_y c) * 32);
     NpcDeathRender.y := inject_Z ((Coords_x c + Coords_y c) * 16) |}.

Definition samplePlayerScreen : NpcDeathRender.Vector2 :=
  {| NpcDeathRender.x := 10; NpcDeathRender.y := 20 |}.

(** ** Proof automation *)

(** Unfold a method down to the state passing. *)
Ltac exec :=
  unfold Client.invoke, Client.login, Client.selectCharacter,
    Client.requestWarpMap, Client.acceptWarp, Client.requestFile,
    Client.requestFile_case, Client.enterGame, Client.emit, Client.modify,
    Client.bus_send, Client.outbox, Client.publishedEvents, mbind, mret,
    Client.M_bind, Client.M_ret in *;
  cbn [fst snd] in *.

Ltac with_bus Hb := exec; cbn; repeat (rewrite Hb; cbn).

(** Unfold an operation down to the state passing. *)
Ltac exec_op :=
  unfold Run.perform, Run.resolve, Client.showError, Client.on,
    Client.getEif_then, Client.getEcf_then, Client.getEnf_then,
    Client.getEsf_then, Client.loadMap_resolved in *;
  exec.

Ltac call_with_bus Hb := unfold Run.perform in *; with_bus Hb.

(** Push [inject_Z] through sums and differences of integers. *)
Ltac push_inject_Z :=
  unfold Z.sub; repeat first [ rewrite inject_Z_plus | rewrite inject_Z_opp ].

(** ** Properties of the [Client] methods *)
Section ClientProperties.
Context `{Eolib}.
Import Client.

Implicit Types (c : Client.t) (b : PacketBus.t) (k : Call).

(** *** Sending on the bus *)

Lemma bus_send_attached c b p :
  bus c = Some b →
  bus_send p c = (Normal tt, set_bus (Some (PacketBus.send p b)) c).
Proof. intros Hb. unfold bus_send. by rewrite Hb. Qed.

Lemma bus_send_null c p :
  bus c = None → bus_send p c = (Throw TypeError, c).
Proof. intros Hb. unfold bus_send. by rewrite Hb. Qed.

Lemma outbox_attached c b : bus c = Some b → outbox c = PacketBus.sent b.
Proof. intros Hb. unfold outbox. by rewrite Hb. Qed.

(** A call on a client without a bus throws, and the client still has no
    bus. *)
Lemma invoke_null c k :
  bus c = None →
  fst (invoke k c) = Throw TypeError ∧ bus (snd (invoke k c)) = None.
Proof.
  intros Hb. destruct k as [u p|i|i| |f i|]; try (with_bus Hb; done).
  destruct f; with_bus Hb; done.
Qed.

(** A call on a client with a bus returns normally, and the client keeps a
    bus. *)
Lemma invoke_attached c b k :
  bus c = Some b →
  fst (invoke k c) = Normal tt ∧ is_Some (bus (snd (invoke k c))).
Proof.
  intros Hb. destruct k as [u p|i|i| |f i|]; try (with_bus Hb; eauto).
  destruct f; with_bus Hb; eauto.
Qed.

Lemma setBus_attaches c b :
  fst (setBus b c) = Normal tt ∧ is_Some (bus (snd (setBus b c))).
Proof. cbv [setBus]. exec. cbn. eauto. Qed.

Lemma invokeAll_null ks : ∀ c,
  bus c = None →
  Forall (λ r, r = Throw TypeError) (fst (invokeAll ks c))
  ∧ bus (snd (invokeAll ks c)) = None.
Proof.
  induction ks as [|k ks IH]; intros c Hb; cbn [invokeAll].
  - by split; [constructor|].
  - destruct (invoke_null c k Hb) as [Hr Hb'].
    destruct (invoke k c) as [r c1]; cbn [fst snd] in *.
    specialize (IH c1 Hb'). destruct (invokeAll ks c1) as [rs c2].
    cbn [fst snd] in *. destruct IH as [IH1 IH2].
    split; [by constructor|done].
Qed.

Lemma invokeAll_attached ks : ∀ c,
  is_Some (bus c) →
  Forall (λ r, r = Normal tt) (fst (invokeAll ks c))
  ∧ is_Some (bus (snd (invokeAll ks c))).
Proof.
  induction ks as [|k ks IH]; intros c [b Hb]; cbn [invokeAll].
  - split; [constructor|eauto].
  - destruct (invoke_attached c b k Hb) as [Hr Hb'].
    destruct (invoke k c) as [r c1]; cbn [fst snd] in *.
    specialize (IH c1 Hb'). destruct (invokeAll ks c1) as [rs c2].
    cbn [fst snd] in *. destruct IH as [IH1 IH2].
    split; [by constructor|done].
Qed.

(** *** C9: calls before and after [setBus]

    C9.  A new client has a null [bus].  On a client whose [bus] is null,
    each of [login], [selectCharacter], [requestWarpMap], [acceptWarp],
    [requestFile] and [enterGame] throws the [TypeError] of reading [send]
    off null and sends nothing: the [bus] is still null.  So whatever calls
    are made on a new client before [setBus], every one of them throws and
    the outbox stays empty.  [setBus] with a bus returns normally and leaves
    the client with a bus; on a client with a bus every such call returns
    normally and the client keeps its bus, so that after [setBus], whatever
    calls are made, none reaches the throwing branch. *)
Theorem calls_throw_before_setBus_and_never_after :
  bus new = None
  ∧ (∀ c k,
       bus c = None →
       fst (invoke k c) = Throw TypeError ∧ bus (snd (invoke k c)) = None)
  ∧ (∀ ks : list Call,
       Forall (λ r, r = Throw TypeError) (fst (invokeAll ks new))
       ∧ bus (snd (invokeAll ks new)) = None
       ∧ outbox (snd (invokeAll ks new)) = [])
  ∧ (∀ c b,
       fst (setBus b c) = Normal tt ∧ is_Some (bus (snd (setBus b c))))
  ∧ (∀ c b k,
       bus c = Some b →
       fst (invoke k c) = Normal tt ∧ is_Some (bus (snd (invoke k c))))
  ∧ (∀ c b (ks : list Call),
       Forall (λ r, r = Normal tt) (fst (invokeAll ks (snd (setBus b c))))).
Proof.
  split; [done|]. split; [apply invoke_null|]. split; [|split; [|split]].
  - intros ks. destruct (invokeAll_null ks new eq_refl) as [Hr Hb].
    split; [done|]. split; [done|]. unfold outbox. by rewrite Hb.
  - apply setBus_attaches.
  - apply invoke_attached.
  - intros c b ks. destruct (setBus_attaches c b) as [Hr Hb].
    by apply invokeAll_attached.
Qed.

(** No field but [bus] changes between a client and itself. *)
Lemma sameButBus_refl c : sameButBus c c.
Proof. by destruct c. Qed.

Lemma sameButBus_set_bus c v : sameButBus c (set_bus v c).
Proof. done. Qed.

(** *** C5: [login]

    C5.  For every username and password, [login] on a client with a bus
    returns normally and enqueues exactly one packet, a login request whose
    [username] and [password] are the arguments.  The call leaves [state]
    and the other session fields ([sessionId], [playerId], [warpMapId],
    [warpQueued]) as they were; no field but [bus] changes. *)
Theorem login_sends_one_request_and_keeps_state
    c (username password : string) :
  let c' := snd (login username password c) in
  (∀ b, bus c = Some b →
     fst (login username password c) = Normal tt
     ∧ outbox c' =
         outbox c ++
         [LoginRequest {| LoginRequestClientPacket.username := username;
                          LoginRequestClientPacket.password := password |}])
  ∧ state c' = state c
  ∧ sessionId c' = sessionId c
  ∧ playerId c' = playerId c
  ∧ warpMapId c' = warpMapId c
  ∧ warpQueued c' = warpQueued c
  ∧ sameButBus c c'.
Proof.
  destruct (bus c) as [b0|] eqn:Hb; with_bus Hb.
  - split; [by intros b [= <-]|]. by repeat split.
  - split; [done|]. repeat split. apply sameButBus_refl.
Qed.

(** *** C8: [requestWarpMap]

    C8.  For every map identifier, [requestWarpMap] on a client with a bus
    returns normally and enqueues exactly one packet, a warp-take carrying
    the given [mapId] and the client's [sessionId].  The client's [mapId],
    [map], [warpMapId] and [warpQueued] are as before the call, and no field
    but [bus] changes. *)
Theorem requestWarpMap_sends_one_take_and_keeps_map_state c (id : Z) :
  let c' := snd (requestWarpMap id c) in
  (∀ b, bus c = Some b →
     fst (requestWarpMap id c) = Normal tt
     ∧ outbox c' =
         outbox c ++
         [WarpTake {| WarpTakeClientPacket.sessionId := sessionId c;
                      WarpTakeClientPacket.mapId := id |}])
  ∧ mapId c' = mapId c
  ∧ map c' = map c
  ∧ warpMapId c' = warpMapId c
  ∧ warpQueued c' = warpQueued c
  ∧ sameButBus c c'.
Proof.
  destruct (bus c) as [b0|] eqn:Hb; with_bus Hb.
  - split; [by intros b [= <-]|]. by repeat split.
  - split; [done|]. repeat split. apply sameButBus_refl.
Qed.

(** *** C4: [acceptWarp] with a warp pending

    C4, as the code has it.  On a client whose [warpQueued] is true:
    with a bus attached, [acceptWarp] returns normally and enqueues exactly
    one packet, a warp-accept whose [sessionId] is the client's and whose
    [mapId] is the client's [warpMapId], and afterwards [warpQueued] is
    false; with no bus attached it throws the [TypeError] of the null
    [bus] before anything changes, so that nothing is sent and the warp is
    still pending. *)
Theorem acceptWarp_queued_sends_with_bus_and_throws_without c :
  warpQueued c = true →
  let c' := snd (acceptWarp c) in
  (∀ b, bus c = Some b →
     fst (acceptWarp c) = Normal tt
     ∧ outbox c' =
         outbox c ++
         [WarpAccept {| WarpAcceptClientPacket.sessionId := sessionId c;
                        WarpAcceptClientPacket.mapId := warpMapId c |}]
     ∧ warpQueued c' = false)
  ∧ (bus c = None →
     fst (acceptWarp c) = Throw TypeError
     ∧ c' = c
     ∧ outbox c' = []
     ∧ warpQueued c' = true).
Proof.
  intros Hq. destruct (bus c) as [b0|] eqn:Hb; with_bus Hb.
  - split; [by intros b [= <-]|done].
  - split; [done|]. intros _. by repeat split.
Qed.

(** *** C7: [enterGame]

    C7, as the code has it.  On a client with a bus, [enterGame] returns
    normally and enqueues exactly one packet, a welcome-message whose
    [characterId] is the [id] of the client's character and whose
    [sessionId] is the client's; on a client with no bus it throws the
    [TypeError] of the null [bus] and sends nothing.  On every client
    [state] is as before the call (so the call does not make it [InGame]),
    and no field but [bus] changes. *)
Theorem enterGame_sends_with_bus_throws_without_and_keeps_state c :
  let c' := snd (enterGame c) in
  (∀ b, bus c = Some b →
     fst (enterGame c) = Normal tt
     ∧ outbox c' =
         outbox c ++
         [WelcomeMsg
            {| WelcomeMsgClientPacket.characterId :=
                 Character.id (character c);
               WelcomeMsgClientPacket.sessionId := sessionId c |}])
  ∧ (bus c = None →
     fst (enterGame c) = Throw TypeError ∧ c' = c ∧ outbox c' = [])
  ∧ state c' = state c
  ∧ sameButBus c c'.
Proof.
  destruct (bus c) as [b0|] eqn:Hb; with_bus Hb.
  - split; [by intros b [= <-]|]. by repeat split.
  - split; [done|]. split; [intros _; by repeat split|].
    split; [done|]. apply sameButBus_refl.
Qed.

(** *** C6: [requestFile]

    C6.  For each of the five file types (class, item, NPC, spell and map
    definitions) and every identifier, [requestFile] on a client with a bus
    returns normally and enqueues exactly one packet, a welcome-agree
    stamped with the client's [sessionId], whose [fileType] is the one
    asked for and whose payload is the variant of that file type (the
    payload is a tagged union, so it is of that variant and of no other)
    with [fileId] the identifier.  With a bus or not, the call publishes
    exactly one event, a [debug] whose message starts with the word
    Loading followed by the word for the category being loaded. *)
Theorem requestFile_sends_one_agree_and_publishes_one_debug
    c (fileType : FileType.t) (id : Z) :
  let c' := snd (requestFile fileType id c) in
  (∀ b, bus c = Some b →
     fst (requestFile fileType id c) = Normal tt
     ∧ ∃ data,
         outbox c' =
           outbox c ++
           [WelcomeAgree
              {| WelcomeAgreeClientPacket.sessionId := sessionId c;
                 WelcomeAgreeClientPacket.fileType := fileType;
                 WelcomeAgreeClientPacket.fileTypeData := Some data |}]
         ∧ WelcomeAgreeClientPacket.variant data = fileType
         ∧ WelcomeAgreeClientPacket.fileId data = id)
  ∧ ∃ message,
      publishedEvents c' = publishedEvents c ++ [ClientEvents.debug message]
      ∧ String.prefix
          ("Loading " +:+ categoryWord (resourceKind fileType)) message
        = true.
Proof.
  destruct (bus c) as [b0|] eqn:Hb; destruct fileType; with_bus Hb;
    (split; [first [done | intros b [= <-]; split; [done|]; eauto]|]);
    eauto.
Qed.

(** *** C2: session-scoped packets echo the session identifier

    C2.  For every client and every call of [requestWarpMap], [acceptWarp],
    [requestFile] or [enterGame], with any arguments, every packet the call
    enqueues carries in its [sessionId] field the client's [sessionId] as
    it was when the call was made; with a bus attached the call enqueues
    exactly one packet. *)
Theorem session_scoped_packets_echo_sessionId c k :
  sessionScoped k = true →
  ∃ sent : list Packet,
    outbox (snd (invoke k c)) = outbox c ++ sent
    ∧ Forall (λ p, Packet_sessionId p = Some (sessionId c)) sent
    ∧ (is_Some (bus c) → length sent = 1%nat).
Proof.
  intros Hk. destruct k as [u p|i|i| |f i|]; try discriminate Hk;
    try destruct f; destruct (bus c) as [b0|] eqn:Hb; with_bus Hb;
    first
      [ eexists (cons _ nil); split; [reflexivity|];
        split; [by repeat constructor|done]
      | exists []; split; [done|];
        split; [constructor|by intros [? [=]]] ].
Qed.

(** *** C1: [acceptWarp] with no warp pending

    C1, as the code has it.  On every client whose [warpQueued] is false,
    [acceptWarp] leaves [warpMapId] as it was and [warpQueued] false; no
    field but [bus] and [warpQueued] changes.  The method has no guard on
    [warpQueued]: with a bus attached it returns normally and enqueues
    exactly one warp-accept echoing the client's [sessionId] and
    [warpMapId], as it does when a warp is pending; with no bus it throws
    before anything changes. *)
Theorem acceptWarp_not_queued_keeps_warpMapId_but_sends c :
  warpQueued c = false →
  let c' := snd (acceptWarp c) in
  warpMapId c' = warpMapId c
  ∧ warpQueued c' = false
  ∧ sameButBusAndWarpQueued c c'
  ∧ (∀ b, bus c = Some b →
       fst (acceptWarp c) = Normal tt
       ∧ outbox c' =
           outbox c ++
           [WarpAccept {| WarpAcceptClientPacket.sessionId := sessionId c;
                          WarpAcceptClientPacket.mapId := warpMapId c |}])
  ∧ (bus c = None → fst (acceptWarp c) = Throw TypeError ∧ c' = c).
Proof.
  intros Hq. destruct (bus c) as [b0|] eqn:Hb; with_bus Hb.
  - do 3 (split; [done|]). split; [by intros b [= <-]|done].
  - do 2 (split; [done|]). split; [|by split].
    destruct c; cbn in *. by subst.
Qed.
End ClientProperties.

(** ** Properties of entity discovery *)
Section DiscoveryProperties.
Context `{Eolib}.
Import Client Discovery.

Implicit Types (c : Client.t) (playerId n : Z) (ns : list Z).

Lemma fetchCount_app playerId (ps qs : list Packet) :
  fetchCount playerId (ps ++ qs)
  = (fetchCount playerId ps + fetchCount playerId qs)%nat.
Proof. unfold fetchCount. by rewrite List.filter_app, length_app. Qed.

Lemma deliverNearbyUpdates_cons n ns c :
  deliverNearbyUpdates (n :: ns) c
  = deliverNearbyUpdates ns (snd (handleNearbyUpdate n c)).
Proof. done. Qed.

(** One notification: what is sent, and what becomes of the set. *)
Lemma handleNearbyUpdate_step n c :
  let c' := snd (handleNearbyUpdate n c) in
  (∀ x, isKnown x c' = isKnown x c)
  ∧ (is_Some (bus c) → is_Some (bus c'))
  ∧ unknownPlayerIds c ⊆ unknownPlayerIds c'
  ∧ unknownPlayerIds c' ⊆ {[n]} ∪ unknownPlayerIds c
  ∧ ∃ sent,
      outbox c' = outbox c ++ sent
      ∧ ∀ playerId,
          (fetchCount playerId sent ≤ 1)%nat
          ∧ (playerId ∈ unknownPlayerIds c → fetchCount playerId sent = 0%nat)
          ∧ (isKnown playerId c = true → fetchCount playerId sent = 0%nat)
          ∧ (n ≠ playerId → fetchCount playerId sent = 0%nat)
          ∧ (fetchCount playerId sent ≠ 0%nat → playerId ∈ unknownPlayerIds c').
Proof.
  unfold handleNearbyUpdate.
  destruct (isKnown n c) eqn:Hk; [|destruct (decide (n ∈ unknownPlayerIds c)) as [Hin|Hin]].
  1,2: cbn; split; [done|]; split; [done|]; split; [done|];
       split; [set_solver|]; exists []; split; [by rewrite app_nil_r|];
       intros p; repeat split; try done; cbn; lia.
  destruct (bus c) as [b|] eqn:Hb; with_bus Hb.
  - split; [done|]. split; [eauto|]. split; [set_solver|]. split; [done|].
    eexists (cons _ nil). split; [reflexivity|]. intros p.
    unfold fetchCount; cbn. destruct (Z.eqb_spec n p) as [->|Hne]; cbn.
    + repeat split; try done; intros; first [set_solver | congruence].
    + repeat split; try done; lia.
  - split; [done|]. split; [by intros [? [=]]|]. split; [set_solver|].
    split; [done|]. exists []. split; [done|].
    intros p; repeat split; try done; cbn; lia.
Qed.

(** A sequence of notifications sends at most one fetch per identifier, and
    none for an identifier that is known or already in the set. *)
Lemma deliverNearbyUpdates_at_most_one ns : ∀ c playerId,
  ∃ sent,
    outbox (deliverNearbyUpdates ns c) = outbox c ++ sent
    ∧ (fetchCount playerId sent ≤ 1)%nat
    ∧ (playerId ∈ unknownPlayerIds c → fetchCount playerId sent = 0%nat)
    ∧ (isKnown playerId c = true → fetchCount playerId sent = 0%nat).
Proof.
  induction ns as [|n ns IH]; intros c p.
  - exists []. cbn. rewrite app_nil_r. repeat split; done || lia.
  - rewrite deliverNearbyUpdates_cons.
    destruct (handleNearbyUpdate_step n c)
      as (Hknown & _ & Hmono & _ & sent1 & Hout1 & Hcount).
    destruct (Hcount p) as (Hle & Hpending & Hk & _ & Hadded).
    destruct (IH (snd (handleNearbyUpdate n c)) p)
      as (sent2 & Hout2 & Hle2 & Hpending2 & Hk2).
    exists (sent1 ++ sent2). rewrite Hout2, Hout1, app_assoc.
    split; [done|]. rewrite fetchCount_app.
    split; [|split].
    + destruct (decide (fetchCount p sent1 = 0%nat)) as [Hz|Hnz]; [lia|].
      rewrite (Hpending2 (Hadded Hnz)). lia.
    + intros Hin. rewrite (Hpending Hin), Hpending2; [done|]. by apply Hmono.
    + intros Hkp. rewrite (Hk Hkp), Hk2; [done|]. by rewrite Hknown.
Qed.

(** The set only grows while notifications are handled. *)
Lemma deliverNearbyUpdates_mono ns : ∀ c,
  unknownPlayerIds c ⊆ unknownPlayerIds (deliverNearbyUpdates ns c).
Proof.
  induction ns as [|n ns IH]; intros c; [done|].
  rewrite deliverNearbyUpdates_cons.
  destruct (handleNearbyUpdate_step n c) as (_ & _ & Hmono & _).
  etrans; [exact Hmono|apply IH].
Qed.

(** The notification that is the first to name an unseen player. *)
Lemma handleNearbyUpdate_unseen c b playerId :
  isKnown playerId c = false →
  playerId ∉ unknownPlayerIds c →
  bus c = Some b →
  handleNearbyUpdate playerId c
  = (Normal tt,
     set_bus
       (Some (PacketBus.send
                (ProfileFetch
                   {| ProfileFetchClientPacket.playerId := playerId |}) b))
       (set_unknownPlayerIds ({[playerId]} ∪ unknownPlayerIds c) c)).
Proof.
  intros Hk Hnew Hb. unfold handleNearbyUpdate. rewrite Hk.
  destruct (decide (playerId ∈ unknownPlayerIds c)); [done|].
  by with_bus Hb.
Qed.

(** A notification that names a player already in the set does nothing. *)
Lemma handleNearbyUpdate_pending c playerId :
  playerId ∈ unknownPlayerIds c →
  handleNearbyUpdate playerId c = (Normal tt, c).
Proof.
  intros Hin. unfold handleNearbyUpdate.
  destruct (isKnown playerId c); [done|].
  by destruct (decide (playerId ∈ unknownPlayerIds c)).
Qed.

(** A sequence of notifications in which an unseen identifier occurs sends
    its fetch, once the client has a bus. *)
Lemma deliverNearbyUpdates_exactly_one ns : ∀ c playerId sent,
  isKnown playerId c = false →
  playerId ∉ unknownPlayerIds c →
  is_Some (bus c) →
  playerId ∈ ns →
  outbox (deliverNearbyUpdates ns c) = outbox c ++ sent →
  fetchCount playerId sent = 1%nat
  ∧ playerId ∈ unknownPlayerIds (deliverNearbyUpdates ns c).
Proof.
  induction ns as [|n ns IH]; intros c p sent Hk Hnew Hbus Hin Hout.
  - by apply elem_of_nil in Hin.
  - rewrite deliverNearbyUpdates_cons in *.
    destruct (decide (n = p)) as [->|Hne].
    + (* the notification at the head is the first to name the player *)
      destruct Hbus as [b Hb].
      rewrite (handleNearbyUpdate_unseen c b p Hk Hnew Hb) in *.
      cbn [snd] in *.
      set (c1 := set_bus _ _) in *.
      assert (p ∈ unknownPlayerIds c1) as Hp
        by (subst c1; cbn; apply elem_of_union_l; by apply elem_of_singleton).
      split; [|by apply deliverNearbyUpdates_mono].
      destruct (deliverNearbyUpdates_at_most_one ns c1 p)
        as (sent2 & Hout2 & _ & Hpending2 & _).
      rewrite Hout2 in Hout. subst c1. unfold outbox in Hout.
      cbn in Hout. rewrite Hb, <-app_assoc in Hout.
      apply app_inv_head in Hout as <-.
      rewrite fetchCount_app, (Hpending2 Hp).
      unfold fetchCount. cbn. by rewrite Z.eqb_refl.
    + apply elem_of_cons in Hin as [->|Hin]; [done|].
      destruct (handleNearbyUpdate_step n c)
        as (Hknown & Hbus' & _ & Hupper & sent1 & Hout1 & Hcount).
      destruct (Hcount p) as (_ & _ & _ & Hother & _).
      destruct (deliverNearbyUpdates_at_most_one ns
                  (snd (handleNearbyUpdate n c)) p)
        as (sent2 & Hout2 & _).
      assert (sent = sent1 ++ sent2) as ->.
      { rewrite Hout2, Hout1, <-app_assoc in Hout.
        by apply app_inv_head in Hout. }
      rewrite fetchCount_app, (Hother Hne). cbn.
      apply (IH (snd (handleNearbyUpdate n c)) p sent2); try done.
      * by rewrite Hknown.
      * intros Hp. apply Hupper in Hp.
        apply elem_of_union in Hp as [Hp%elem_of_singleton|Hp]; congruence.
      * by apply Hbus'.
Qed.

(** When a profile arrives its player leaves the set and is in view. *)
Lemma handleProfile_removes c (info : CharacterMapInfo) :
  let c' := snd (handleProfile info c) in
  fst (handleProfile info c) = Normal tt
  ∧ (CharacterMapInfo_playerId info ∉ unknownPlayerIds c')
  ∧ info ∈ NearbyInfo.characters (nearby c')
  ∧ isKnown (CharacterMapInfo_playerId info) c' = true.
Proof.
  unfold handleProfile. exec. cbn. split; [done|].
  split; [rewrite elem_of_difference, elem_of_singleton; tauto|].
  split; [apply elem_of_app; right; apply list_elem_of_here|]. unfold isKnown. cbn.
  apply orb_true_iff. right. rewrite existsb_app. cbn.
  by rewrite Z.eqb_refl, orb_true_r.
Qed.

(** *** C3: one fetch per unseen player

    C3.  Let nearby-update notifications be handled one after the other,
    from any client.  However many of them name a player identifier, at
    most one profile-fetch request for that identifier is enqueued.  When
    the identifier is unseen (neither the local character's nor in view),
    not in [unknownPlayerIds] yet, the client has a bus, and at least one
    notification names it, exactly one request is enqueued and the
    identifier is in [unknownPlayerIds] afterwards.  A notification naming
    an identifier that is a member of the set already changes nothing and
    sends nothing; the first one naming an unseen identifier adds it to the
    set and enqueues its request.  When the profile of a player arrives,
    its identifier is removed from the set and the player is in view. *)
Theorem nearby_updates_fetch_each_unseen_player_at_most_once
    c playerId ns :
  (∃ sent,
     outbox (deliverNearbyUpdates ns c) = outbox c ++ sent
     ∧ (fetchCount playerId sent ≤ 1)%nat
     ∧ (isKnown playerId c = false →
        playerId ∉ unknownPlayerIds c →
        is_Some (bus c) →
        playerId ∈ ns →
        fetchCount playerId sent = 1%nat
        ∧ playerId ∈ unknownPlayerIds (deliverNearbyUpdates ns c)))
  ∧ (playerId ∈ unknownPlayerIds c →
     handleNearbyUpdate playerId c = (Normal tt, c))
  ∧ (∀ b,
       isKnown playerId c = false →
       playerId ∉ unknownPlayerIds c →
       bus c = Some b →
       let c' := snd (handleNearbyUpdate playerId c) in
       unknownPlayerIds c' = {[playerId]} ∪ unknownPlayerIds c
       ∧ outbox c' =
           outbox c ++
           [ProfileFetch
              {| ProfileFetchClientPacket.playerId := playerId |}])
  ∧ (∀ info : CharacterMapInfo,
       CharacterMapInfo_playerId info = playerId →
       let c' := snd (handleProfile info c) in
       (playerId ∉ unknownPlayerIds c')
       ∧ info ∈ NearbyInfo.characters (nearby c')).
Proof.
  split; [|split; [|split]].
  - destruct (deliverNearbyUpdates_at_most_one ns c playerId)
      as (sent & Hout & Hle & _).
    exists sent. split; [done|]. split; [done|].
    intros Hk Hnew Hbus Hin.
    by apply (deliverNearbyUpdates_exactly_one ns c playerId sent).
  - apply handleNearbyUpdate_pending.
  - intros b Hk Hnew Hb.
    rewrite (handleNearbyUpdate_unseen c b playerId Hk Hnew Hb).
    cbn. split; [done|]. unfold outbox. cbn. by rewrite Hb.
  - intros info <-.
    destruct (handleProfile_removes c info) as (_ & Hgone & Hin & _).
    by split.
Qed.
End DiscoveryProperties.

(** ** Properties of the NPC death animation *)
Section NpcDeathProperties.
Import NpcDeathAnimation.

Variable NPC_DEATH_TICKS : Z.
Variable super : NpcDeathAnimation.t.

(** The fade lasts at least one tick. *)
Hypothesis NPC_DEATH_TICKS_positive : 0 < NPC_DEATH_TICKS.

Lemma ticked_S n (a : NpcDeathAnimation.t) :
  ticked (S n) a = tick (ticked n a).
Proof. done. Qed.

Lemma ticks_ticked n :
  ticks (ticked n (new NPC_DEATH_TICKS super))
  = Z.max (NPC_DEATH_TICKS - Z.of_nat n) 0.
Proof.
  induction n as [|n IH].
  - cbn. lia.
  - rewrite ticked_S. cbn [tick ticks]. rewrite IH. lia.
Qed.

Lemma quotient_in_unit_interval (t : Z) :
  0 ≤ t ≤ NPC_DEATH_TICKS →
  (0 <= inject_Z t / inject_Z NPC_DEATH_TICKS
   ∧ inject_Z t / inject_Z NPC_DEATH_TICKS <= 1)%Q.
Proof.
  intros [Hlo Hhi].
  assert (inject_Z 0 < inject_Z NPC_DEATH_TICKS)%Q as HN
    by (by rewrite <-Zlt_Qlt).
  split.
  - apply Qle_shift_div_l; [done|]. rewrite Qmult_0_l.
    change 0%Q with (inject_Z 0). by rewrite <-Zle_Qle.
  - apply Qle_shift_div_r; [done|]. rewrite Qmult_1_l.
    by rewrite <-Zle_Qle.
Qed.

(** *** C10: the tick counter and the opacity

    C10.  With [NPC_DEATH_TICKS] a positive integer: a new death animation
    has [ticks] equal to [NPC_DEATH_TICKS]; one [tick] takes one off
    [ticks] and stops at zero; after [n] calls of [tick] on a new animation
    [ticks] is the larger of [NPC_DEATH_TICKS - n] and 0; and the opacity
    [ticks / NPC_DEATH_TICKS] that [render] draws with is at least 0 and at
    most 1 after any number of ticks. *)
Theorem death_ticks_count_down_and_alpha_in_unit_interval (n : nat) :
  let a := ticked n (new NPC_DEATH_TICKS super) in
  ticks (new NPC_DEATH_TICKS super) = NPC_DEATH_TICKS
  ∧ ticks (tick a) = Z.max (ticks a - 1) 0
  ∧ 0 ≤ ticks (tick a)
  ∧ ticks a = Z.max (NPC_DEATH_TICKS - Z.of_nat n) 0
  ∧ (0 <= globalAlpha NPC_DEATH_TICKS a)%Q
  ∧ (globalAlpha NPC_DEATH_TICKS a <= 1)%Q
  ∧ render NPC_DEATH_TICKS true a = Some (globalAlpha NPC_DEATH_TICKS a).
Proof.
  cbv zeta. split; [done|]. split; [done|]. split; [cbn; lia|].
  split; [apply ticks_ticked|].
  destruct (quotient_in_unit_interval
              (ticks (ticked n (new NPC_DEATH_TICKS super)))) as [Hlo Hhi].
  { rewrite ticks_ticked. lia. }
  by repeat split.
Qed.
End NpcDeathProperties.

(** ** Properties of sequences of operations *)
Section RunProperties.
Context `{Eolib}.
Import Client Run.

Implicit Types (c : Client.t) (b : PacketBus.t) (k : Call) (o : Op)
  (ops : list Op).

Lemma bus_eta b :
  {| PacketBus.sent := PacketBus.sent b ++ [];
     PacketBus.registered := PacketBus.registered b |} = b.
Proof. destruct b. cbn. by rewrite app_nil_r. Qed.

Lemma performAll_cons o ops c :
  performAll (o :: ops) c
  = (fst (perform o c) :: fst (performAll ops (snd (perform o c))),
     snd (performAll ops (snd (perform o c)))).
Proof.
  cbn [performAll]. destruct (perform o c) as [r c1]. cbn [fst snd].
  by destruct (performAll ops c1).
Qed.

(** One operation on a client without a bus. *)
Lemma perform_detached o c :
  bus c = None →
  fst (perform o c) = (if isCall o then Throw TypeError else Normal tt)
  ∧ bus (snd (perform o c)) = None
  ∧ warpQueued (snd (perform o c)) = warpQueued c.
Proof.
  intros Hb. destruct o as [k|m t|e|e|r].
  - destruct k as [u p|i|i| |f i|]; try destruct f; by call_with_bus Hb.
  - by exec_op.
  - by exec_op.
  - by exec_op.
  - destruct r; by exec_op.
Qed.

(** One operation on a client with a bus. *)
Lemma perform_attached o c b :
  bus c = Some b →
  fst (perform o c) = Normal tt
  ∧ bus (snd (perform o c))
    = Some {| PacketBus.sent := PacketBus.sent b ++ packetsOf c o;
              PacketBus.registered := PacketBus.registered b |}
  ∧ warpQueued (snd (perform o c))
    = warpQueued c && negb (isAcceptWarp o).
Proof.
  intros Hb. destruct o as [k|m t|e|e|r].
  - destruct k as [u p|i|i| |f i|]; try destruct f; call_with_bus Hb;
      by rewrite ?andb_true_r, ?andb_false_r.
  - exec_op. cbn. by rewrite Hb, bus_eta, andb_true_r.
  - exec_op. cbn. by rewrite Hb, bus_eta, andb_true_r.
  - exec_op. cbn. by rewrite Hb, bus_eta, andb_true_r.
  - destruct r; exec_op; cbn; by rewrite Hb, bus_eta, andb_true_r.
Qed.

(** One operation: the fields of the handler layer, and the emitter. *)
Lemma perform_frame o c :
  handlerOwned (snd (perform o c)) = handlerOwned c
  ∧ publishedEvents (snd (perform o c)) = publishedEvents c ++ eventsOf o
  ∧ Emitter.subscribed (emitter (snd (perform o c)))
    = Emitter.subscribed (emitter c) ++ subscriptionsOf o.
Proof.
  destruct o as [k|m t|e|e|r].
  - destruct k as [u p|i|i| |f i|]; try destruct f;
      destruct (bus c) as [b|] eqn:Hb; call_with_bus Hb;
      by rewrite ?app_nil_r.
  - exec_op. cbn. by rewrite app_nil_r.
  - exec_op. cbn. by rewrite app_nil_r.
  - exec_op. cbn. by rewrite app_nil_r.
  - destruct r; exec_op; cbn; by rewrite !app_nil_r.
Qed.

Lemma packetsOf_handlerOwned c c' o :
  handlerOwned c' = handlerOwned c → packetsOf c' o = packetsOf c o.
Proof.
  unfold handlerOwned. intros [= Hst Hsid Hpid Hch Hmap Hwarp _ _ _ _ _].
  destruct o as [k| | | |]; try done.
  destruct k; cbn; by rewrite ?Hsid, ?Hwarp, ?Hch.
Qed.
(** *** X1: the methods of the class never write the handler layer's fields

    X1.  Whatever calls, errors shown, events emitted, subscriptions and
    resolved loads a client goes through, in whatever order and with a bus
    or without, its [state], [sessionId], [playerId], [character], [mapId],
    [warpMapId], [serverSettings], [motd], [nearby], [downloadQueue] and
    [unknownPlayerIds] are at the end what they were at the start. *)
Theorem operations_keep_handler_owned_fields ops : ∀ c,
  handlerOwned (snd (performAll ops c)) = handlerOwned c.
Proof.
  induction ops as [|o ops IH]; intros c; [done|].
  rewrite performAll_cons. cbn [snd]. rewrite IH.
  apply perform_frame.
Qed.

(** *** X2: what a sequence sends on an attached bus

    X2.  On a client with a bus, no operation of a sequence throws, the
    handler registrations of the bus are left alone, and the packets
    enqueued are exactly one per call, in the order of the calls, each
    built from the [sessionId], [warpMapId] and character the client had
    at the start; operations other than calls enqueue nothing. *)
Theorem operations_on_attached_bus_send_one_packet_per_call ops : ∀ c b,
  bus c = Some b →
  Forall (λ r, r = Normal tt) (fst (performAll ops c))
  ∧ bus (snd (performAll ops c))
    = Some {| PacketBus.sent :=
                PacketBus.sent b ++ flat_map (packetsOf c) ops;
              PacketBus.registered := PacketBus.registered b |}.
Proof.
  induction ops as [|o ops IH]; intros c b Hb.
  - cbn. split; [constructor|]. by rewrite bus_eta.
  - rewrite performAll_cons. cbn [fst snd flat_map].
    destruct (perform_attached o c b Hb) as (Hr & Hb1 & _).
    destruct (IH _ _ Hb1) as [Hrs Hb2]. split; [by constructor|].
    rewrite Hb2. cbn. rewrite <-app_assoc. do 4 f_equal.
    apply flat_map_ext. intros o'. apply packetsOf_handlerOwned.
    apply perform_frame.
Qed.

(** *** X3: what a sequence does without a bus

    X3.  On a client whose [bus] is null, the operations of a sequence that
    throw are exactly the six calls, each with a [TypeError]; showing an
    error, emitting, subscribing and the resolved loads complete normally.
    At the end the [bus] is still null and [warpQueued] is what it was: an
    [acceptWarp] that throws leaves the warp pending. *)
Theorem operations_without_bus_throw_exactly_at_calls ops : ∀ c,
  bus c = None →
  fst (performAll ops c)
  = List.map (λ o, if isCall o then Throw TypeError else Normal tt) ops
  ∧ bus (snd (performAll ops c)) = None
  ∧ warpQueued (snd (performAll ops c)) = warpQueued c.
Proof.
  induction ops as [|o ops IH]; intros c Hb; [done|].
  rewrite performAll_cons. cbn [fst snd List.map].
  destruct (perform_detached o c Hb) as (Hr & Hb1 & Hq).
  destruct (IH _ Hb1) as (Hrs & Hb2 & Hq2).
  rewrite Hr, Hrs, Hq2, Hq. done.
Qed.

(** *** X4: what a sequence publishes

    X4.  With a bus or without, the events published on the emitter by a
    sequence of operations are, in order: the progress line of each
    [requestFile] (also of one that then throws for want of a bus), the
    error of each [showError], with an empty title when none was given, and
    each event emitted; the other calls publish nothing.  The subscriptions
    added are those of the [on] calls, in order. *)
Theorem operations_publish_their_events_in_order ops : ∀ c,
  publishedEvents (snd (performAll ops c))
  = publishedEvents c ++ flat_map eventsOf ops
  ∧ Emitter.subscribed (emitter (snd (performAll ops c)))
    = Emitter.subscribed (emitter c) ++ flat_map subscriptionsOf ops.
Proof.
  induction ops as [|o ops IH]; intros c.
  - cbn. by rewrite !app_nil_r.
  - rewrite performAll_cons. cbn [snd flat_map].
    destruct (IH (snd (perform o c))) as [Hp Hs].
    destruct (perform_frame o c) as (_ & Hp1 & Hs1).
    rewrite Hp, Hs, Hp1, Hs1. by rewrite <-!app_assoc.
Qed.

(** *** X5: [warpQueued] is only ever cleared

    X5.  No operation sets [warpQueued]: if it is true after a sequence of
    operations it was true before.  On a client with a bus it is true at
    the end exactly when it was true at the start and the sequence has no
    [acceptWarp]. *)
Theorem operations_never_set_warpQueued ops : ∀ c,
  (warpQueued (snd (performAll ops c)) = true → warpQueued c = true)
  ∧ (∀ b, bus c = Some b →
       warpQueued (snd (performAll ops c))
       = warpQueued c && negb (existsb isAcceptWarp ops)).
Proof.
  induction ops as [|o ops IH]; intros c.
  - cbn. split; [done|]. intros _ _. by rewrite andb_true_r.
  - rewrite performAll_cons. cbn [snd existsb].
    destruct (IH (snd (perform o c))) as [Hmono Hexact].
    destruct (bus c) as [b|] eqn:Hb.
    + destruct (perform_attached o c b Hb) as (_ & Hb1 & Hq).
      split.
      * intros Hq'. apply Hmono in Hq'. rewrite Hq in Hq'.
        by apply andb_true_iff in Hq' as [? _].
      * intros b' _. rewrite (Hexact _ Hb1), Hq.
        by rewrite negb_orb, andb_assoc.
    + destruct (perform_detached o c Hb) as (_ & _ & Hq).
      split; [|done]. intros Hq'. apply Hmono in Hq'. by rewrite <-Hq.
Qed.
(** *** X6: the loads race freely

    X6.  A load that resolves (one of the four pub files of the
    constructor, or the map of [loadMap]) and any other operation, except a
    load into the same slot, can happen in either order: the client at the
    end is the same, and the operation completes the same way whether the
    load has resolved before it or not. *)
Theorem resolved_load_commutes_with_other_operations r o c :
  (∀ r', o = OpResolved r' → slot r' ≠ slot r) →
  snd (performAll [OpResolved r; o] c) = snd (performAll [o; OpResolved r] c)
  ∧ fst (perform o (snd (perform (OpResolved r) c))) = fst (perform o c).
Proof.
  intros Hslot. rewrite !performAll_cons. cbn [performAll fst snd].
  destruct o as [k|m t|e|e|r'].
  - destruct k as [u p|i|i| |f i|]; try destruct f; destruct r;
      destruct (bus c) as [b|] eqn:Hb; unfold perform, resolve,
        getEif_then, getEcf_then, getEnf_then, getEsf_then, loadMap_resolved;
      with_bus Hb; done.
  - destruct r; exec_op; done.
  - destruct r; exec_op; done.
  - destruct r; exec_op; done.
  - destruct r, r'; exec_op; try done;
      by (exfalso; eapply Hslot; [reflexivity|]).
Qed.

(** *** X7: [selectCharacter]

    X7.  For every character identifier, [selectCharacter] on a client with
    a bus returns normally and enqueues exactly one packet, a welcome
    request whose [characterId] is the argument; it does not record the
    selection: the client's own [character] is as before, and no field but
    [bus] changes. *)
Theorem selectCharacter_sends_one_request_and_keeps_character
    c (characterId : Z) :
  let c' := snd (selectCharacter characterId c) in
  (∀ b, bus c = Some b →
     fst (selectCharacter characterId c) = Normal tt
     ∧ outbox c' =
         outbox c ++
         [WelcomeRequest
            {| WelcomeRequestClientPacket.characterId := characterId |}])
  ∧ character c' = character c
  ∧ sameButBus c c'.
Proof.
  destruct (bus c) as [b0|] eqn:Hb; with_bus Hb.
  - split; [by intros b [= <-]|]. by repeat split.
  - split; [done|]. split; [done|]. apply sameButBus_refl.
Qed.

Lemma bind_normal {A B} (m : M A) (k : A → M B) c (a : A) c1 :
  m c = (Normal a, c1) → (m ≫= k) c = k a c1.
Proof. intros Hm. unfold mbind, M_bind. by rewrite Hm. Qed.

Lemma registerHandlers_attached (h : HandlerModule) b c :
  registerHandlers h (set_bus (Some b) c)
  = (Normal tt, set_bus (Some (PacketBus.register h b)) c).
Proof. reflexivity. Qed.

Lemma setBus_unfolded b c :
  setBus b c
  = (Normal tt,
     set_bus
       (Some
          {| PacketBus.sent := PacketBus.sent b;
             PacketBus.registered :=
               PacketBus.registered b ++
               [InitHandlers; ConnectionHandlers; LoginHandlers;
                WelcomeHandlers; PlayersHandlers; AvatarHandlers;
                FaceHandlers; WalkHandlers; SitHandlers; WarpHandlers;
                RefreshHandlers; NpcHandlers] |}) c).
Proof.
  unfold setBus.
  erewrite bind_normal by reflexivity.
  do 11 (erewrite bind_normal by apply registerHandlers_attached).
  rewrite registerHandlers_attached. unfold PacketBus.register. cbn.
  by rewrite <-!app_assoc.
Qed.

(** *** X8: [setBus]

    X8.  [setBus] returns normally on every client.  It replaces whatever
    bus the client had: afterwards the client's bus is the one passed in,
    with what that bus had sent and registered before, followed by the
    registrations of the twelve handler modules in the order init,
    connection, login, welcome, players, avatar, face, walk, sit, warp,
    refresh, npc.  No field but [bus] changes. *)
Theorem setBus_replaces_bus_and_registers_handlers_in_order c b :
  let c' := snd (setBus b c) in
  fst (setBus b c) = Normal tt
  ∧ bus c' =
      Some {| PacketBus.sent := PacketBus.sent b;
              PacketBus.registered :=
                PacketBus.registered b ++
                [InitHandlers; ConnectionHandlers; LoginHandlers;
                 WelcomeHandlers; PlayersHandlers; AvatarHandlers;
                 FaceHandlers; WalkHandlers; SitHandlers; WarpHandlers;
                 RefreshHandlers; NpcHandlers] |}
  ∧ outbox c' = PacketBus.sent b
  ∧ sameButBus c c'.
Proof.
  cbv zeta. rewrite setBus_unfolded. cbn [fst snd].
  split; [reflexivity|]. split; [reflexivity|].
  split; [reflexivity|]. apply sameButBus_set_bus.
Qed.
End RunProperties.

(** ** Properties of the death animation, continued *)
Section FadeProperties.
Import NpcDeathAnimation.

Variable NPC_DEATH_TICKS : Z.
Variable super : NpcDeathAnimation.t.

Lemma ticks_ticked_from (a : NpcDeathAnimation.t) (n : nat) :
  0 ≤ ticks a → ticks (ticked n a) = Z.max (ticks a - Z.of_nat n) 0.
Proof.
  intros Ha. induction n as [|n IH].
  - cbn. lia.
  - rewrite ticked_S. cbn [tick ticks]. rewrite IH. lia.
Qed.

Lemma ticked_animationFrame (a : NpcDeathAnimation.t) (n : nat) :
  animationFrame (ticked n a) = animationFrame a.
Proof. induction n as [|n IH]; [done|]. by rewrite ticked_S. Qed.

(** *** X9: counting down from any whole number of ticks

    X9.  Let [ticks] hold a whole number between -2^53 and 2^53, the range
    in which the subtraction of the source is exact (the field is public,
    and may have been set to such a number, also below zero).  One [tick]
    leaves it at zero or more, and never above what it was unless it was
    negative; from a value that is not negative, [n] ticks leave the larger
    of that value less [n] and 0, so that zero, once reached, is kept.
    [tick] never touches [animationFrame]. *)
Theorem tick_counts_down_from_any_safe_integer
    (a : NpcDeathAnimation.t) (n : nat) :
  - 2 ^ 53 ≤ ticks a ≤ 2 ^ 53 →
  0 ≤ ticks (tick a)
  ∧ (0 ≤ ticks a → ticks (tick a) ≤ ticks a)
  ∧ (0 ≤ ticks a → ticks (ticked n a) = Z.max (ticks a - Z.of_nat n) 0)
  ∧ (0 ≤ ticks a → 0 ≤ ticks (ticked n a) ≤ ticks a)
  ∧ (ticks a = 0 → ticks (ticked n a) = 0)
  ∧ animationFrame (ticked n a) = animationFrame a.
Proof.
  intros _.
  split; [cbn; lia|]. split; [cbn; lia|].
  split; [apply ticks_ticked_from|].
  split; [intros Ha; rewrite ticks_ticked_from by lia; lia|].
  split; [|apply ticked_animationFrame].
  intros Ha. rewrite ticks_ticked_from by lia. lia.
Qed.

Lemma globalAlpha_pos (t : Z) :
  0 < NPC_DEATH_TICKS → 0 < t →
  (0 < inject_Z t / inject_Z NPC_DEATH_TICKS)%Q.
Proof.
  intros HN Ht. apply Qlt_shift_div_l.
  - change 0%Q with (inject_Z 0). by rewrite <-Zlt_Qlt.
  - rewrite Qmult_0_l. change 0%Q with (inject_Z 0). by rewrite <-Zlt_Qlt.
Qed.

Lemma globalAlpha_lt (t u : Z) :
  0 < NPC_DEATH_TICKS → t < u →
  (inject_Z t / inject_Z NPC_DEATH_TICKS
   < inject_Z u / inject_Z NPC_DEATH_TICKS)%Q.
Proof.
  intros HN Htu. unfold Qdiv. apply Qmult_lt_compat_r.
  - apply Qinv_lt_0_compat. change 0%Q with (inject_Z 0).
    by rewrite <-Zlt_Qlt.
  - by rewrite <-Zlt_Qlt.
Qed.

(** *** X10: how long the fade lasts

    X10.  With [NPC_DEATH_TICKS] positive: a new death animation is drawn
    fully opaque (opacity 1); each [tick] before the count reaches zero
    makes the opacity strictly smaller, while it stays above 0; and after
    [n] ticks the count is zero, and the opacity 0, exactly when [n] is at
    least [NPC_DEATH_TICKS]. *)
Theorem fade_lasts_exactly_NPC_DEATH_TICKS (n : nat) :
  0 < NPC_DEATH_TICKS →
  let alpha k :=
    globalAlpha NPC_DEATH_TICKS (ticked k (new NPC_DEATH_TICKS super)) in
  (alpha 0%nat == 1)%Q
  ∧ (Z.of_nat n < NPC_DEATH_TICKS →
     (0 < alpha n)%Q ∧ (alpha (S n) < alpha n)%Q)
  ∧ (ticks (ticked n (new NPC_DEATH_TICKS super)) = 0
     ↔ NPC_DEATH_TICKS ≤ Z.of_nat n)
  ∧ (NPC_DEATH_TICKS ≤ Z.of_nat n → (alpha n == 0)%Q).
Proof.
  intros HN alpha. subst alpha. cbv beta. unfold globalAlpha.
  rewrite !(ticks_ticked NPC_DEATH_TICKS super HN).
  split; [|split; [|split]].
  - cbn [Z.of_nat]. rewrite Z.sub_0_r, Z.max_l by lia.
    apply Qmult_inv_r. intros Heq.
    assert (NPC_DEATH_TICKS = 0) by (by apply inject_Z_injective). lia.
  - intros Hn. split.
    + apply globalAlpha_pos; lia.
    + apply globalAlpha_lt; lia.
  - lia.
  - intros Hn. rewrite Z.max_r by lia. unfold Qdiv. apply Qmult_0_l.
Qed.
End FadeProperties.

(** ** Properties of [render] *)
Section RenderProperties.
Import NpcDeathRender.

Variable NPC_DEATH_TICKS : Z.
Variables GAME_WIDTH HALF_GAME_WIDTH HALF_GAME_HEIGHT : Q.
Variable GfxType : Type.
Variable GfxType_NPC : GfxType.
Variable Bitmap : Type.
Variable getBitmapById : GfxType → Z → option Bitmap.
Variable getFrameById : GfxType → Z → Frame.
Variable isoToScreen : Coords → Vector2.

#[local] Abbreviation render :=
  (render NPC_DEATH_TICKS GAME_WIDTH HALF_GAME_WIDTH HALF_GAME_HEIGHT
     GfxType GfxType_NPC Bitmap getBitmapById getFrameById isoToScreen).
#[local] Abbreviation screenX := (screenX HALF_GAME_WIDTH isoToScreen).
#[local] Abbreviation screenY := (screenY HALF_GAME_HEIGHT isoToScreen).
#[local] Abbreviation drawX := (drawX GAME_WIDTH HALF_GAME_WIDTH isoToScreen).
#[local] Abbreviation drawY := (drawY HALF_GAME_HEIGHT isoToScreen).

Implicit Types (npc : NpcMapInfo) (meta : NPCMetadata)
  (playerScreen : Vector2) (this : NpcDeathAnimation.t)
  (cv : Canvas).

Lemma frame_table npc :
  frame npc
  = match direction npc with
    | Direction.Down | Direction.Right => 1
    | Direction.Up | Direction.Left => 3
    end.
Proof. unfold frame, downRight, includes. by destruct (direction npc). Qed.

Lemma mirrored_table npc :
  mirrored npc
  = match direction npc with
    | Direction.Right | Direction.Up => true
    | Direction.Down | Direction.Left => false
    end.
Proof. unfold mirrored, includes. by destruct (direction npc). Qed.

(** *** X11: which sprite is drawn, and which way round

    X11.  For graphic identifiers that are whole numbers between -2^47 and
    2^47, the range in which [(graphicId - 1) * 40 + frame] is computed
    exactly by the source: the bitmap [render] asks for and whether it
    draws mirrored tell the graphic and the direction of the NPC apart.
    Two NPCs get the same bitmap identifier and the same mirroring exactly
    when they have the same graphic identifier and face the same way.
    (Down and right share frame 1, up and left frame 3; right and up are
    the mirrored ones.) *)
Theorem bitmap_and_mirroring_determine_graphic_and_direction
    (graphicId1 graphicId2 : Z) npc1 npc2 :
  - 2 ^ 47 ≤ graphicId1 ≤ 2 ^ 47 →
  - 2 ^ 47 ≤ graphicId2 ≤ 2 ^ 47 →
  (bitmapId graphicId1 npc1 = bitmapId graphicId2 npc2
   ∧ mirrored npc1 = mirrored npc2)
  ↔ (graphicId1 = graphicId2 ∧ direction npc1 = direction npc2).
Proof.
  intros _ _. unfold bitmapId. rewrite !frame_table, !mirrored_table.
  split.
  - destruct (direction npc1), (direction npc2); intros [Hid Hm];
      first [discriminate Hm | split; [lia|reflexivity] | exfalso; lia ].
  - intros [-> ->]. done.
Qed.

(** *** X12: the canvas after [render]

    X12.  [render] leaves the transformations and the saved states of the
    canvas as it found them, whichever way the NPC faces: the mirroring it
    sets up is undone by the time it returns.  The opacity is not always
    put back: when nothing is drawn (bitmap not loaded) or the sprite is
    mirrored, it is what it was on entry; when the sprite is drawn
    unmirrored it is 1, whatever it was before. *)
Theorem render_undoes_its_mirroring_and_leaves_opacity
    (graphicId : Z) npc meta playerScreen this cv :
  let cv' := run (render graphicId npc meta playerScreen this) cv in
  transform cv' = transform cv
  ∧ saved cv' = saved cv
  ∧ globalAlpha cv' =
      match getBitmapById GfxType_NPC (bitmapId graphicId npc) with
      | None => globalAlpha cv
      | Some _ => if mirrored npc then globalAlpha cv else 1%Q
      end.
Proof.
  unfold NpcDeathRender.render.
  destruct (getBitmapById _ _) as [bmp|]; [|done].
  by destruct (mirrored npc).
Qed.

(** *** X13: what [render] draws and registers

    X13.  While the bitmap is not loaded [render] does nothing at all: no
    call on the canvas, no collision rectangle.  Once it is loaded,
    [render] draws the bitmap exactly once, at ([drawX], [drawY]), with the
    opacity [ticks / NPC_DEATH_TICKS] (also when that is 0), under the
    transformations of the caller followed, for a mirrored sprite, by the
    translation by [GAME_WIDTH] and the horizontal flip; and it registers
    exactly one collision rectangle, for the NPC's index, of the size of
    the frame, whose left edge is [screenX] (not [drawX]) and whose top is
    [drawY]. *)
Theorem render_draws_once_and_registers_one_rectangle
    (graphicId : Z) npc meta playerScreen this cv :
  let es := render graphicId npc meta playerScreen this in
  let renderFrame := getFrameById GfxType_NPC (bitmapId graphicId npc) in
  match getBitmapById GfxType_NPC (bitmapId graphicId npc) with
  | None => es = []
  | Some bmp =>
      drawn es cv =
        [(bmp,
          (drawX renderFrame npc meta playerScreen this,
           drawY renderFrame npc meta playerScreen this),
          NpcDeathAnimation.globalAlpha NPC_DEATH_TICKS this,
          transform cv ++
          (if mirrored npc
           then [Translate GAME_WIDTH 0; Scale (-1) 1]
           else []))]
      ∧ rectangles es =
          [(index npc,
            {| position :=
                 (screenX renderFrame npc playerScreen,
                  drawY renderFrame npc meta playerScreen this);
               width := w renderFrame; height := h renderFrame |})]
  end.
Proof.
  unfold NpcDeathRender.render.
  destruct (getBitmapById _ _) as [bmp|]; [|done].
  destruct (mirrored npc); cbn; by rewrite ?app_nil_r, <-?app_assoc.
Qed.

Lemma Qfloor_minus_half (a fw : Z) :
  Qfloor (inject_Z a - inject_Z fw / 2) = a - (fw + 1) / 2.
Proof.
  assert (inject_Z a - inject_Z fw / 2 == (2 * a - fw) # 2)%Q as ->.
  { unfold Qeq. cbn. lia. }
  cbn [Qfloor]. Z.div_mod_to_equations. lia.
Qed.

(** *** X14: where the sprite lands, in whole pixels

    X14.  When the coordinates, the sizes and the offsets are whole
    numbers of pixels: [screenX] centres the frame on the NPC's screen
    position, a frame of odd width going the odd half pixel to the left;
    [drawY] puts the frame 23 pixels short of its height above that
    position, raised by the vertical offset; unmirrored, the sprite is
    drawn at [screenX] plus the horizontal offset; mirrored, it is drawn
    in the flipped canvas so that its left edge on the screen,
    [GAME_WIDTH - (drawX + w)], is [screenX] minus the horizontal
    offset: mirroring turns the offset round. *)
Theorem whole_pixel_geometry
    (sx sy px py hgw hgh gw fw fh mx my : Z)
    renderFrame npc meta playerScreen this :
  (x (isoToScreen (coords npc)) == inject_Z sx)%Q →
  (y (isoToScreen (coords npc)) == inject_Z sy)%Q →
  (x playerScreen == inject_Z px)%Q →
  (y playerScreen == inject_Z py)%Q →
  (HALF_GAME_WIDTH == inject_Z hgw)%Q →
  (HALF_GAME_HEIGHT == inject_Z hgh)%Q →
  (GAME_WIDTH == inject_Z gw)%Q →
  (w renderFrame == inject_Z fw)%Q →
  (h renderFrame == inject_Z fh)%Q →
  (x (metaOffset meta this) == inject_Z mx)%Q →
  (y (metaOffset meta this) == inject_Z my)%Q →
  screenX renderFrame npc playerScreen = sx - px + hgw - (fw + 1) / 2
  ∧ drawY renderFrame npc meta playerScreen this
    = sy - (fh - 23) - py + hgh - my
  ∧ (mirrored npc = false →
     drawX renderFrame npc meta playerScreen this
     = screenX renderFrame npc playerScreen + mx)
  ∧ (mirrored npc = true →
     gw - (drawX renderFrame npc meta playerScreen this + fw)
     = screenX renderFrame npc playerScreen - mx).
Proof.
  intros Hsx Hsy Hpx Hpy Hhgw Hhgh Hgw Hfw Hfh Hmx Hmy.
  assert (screenX renderFrame npc playerScreen
          = sx - px + hgw - (fw + 1) / 2) as HX.
  { unfold NpcDeathRender.screenX. rewrite Hsx, Hpx, Hhgw, Hfw.
    rewrite <-(Qfloor_minus_half (sx - px + hgw) fw).
    apply Qfloor_comp. push_inject_Z. ring. }
  split; [exact HX|]. split; [|split].
  - unfold NpcDeathRender.drawY, NpcDeathRender.screenY.
    rewrite Hsy, Hpy, Hhgh, Hfh, Hmy.
    rewrite <-(Qfloor_Z (sy - (fh - 23) - py + hgh - my)).
    apply Qfloor_comp.
    push_inject_Z. ring.
  - intros Hm. unfold NpcDeathRender.drawX. rewrite Hm, Hmx.
    rewrite <-inject_Z_plus. apply Qfloor_Z.
  - intros Hm. unfold NpcDeathRender.drawX. rewrite Hm, Hmx, Hgw, Hfw.
    assert (inject_Z gw
            - inject_Z (NpcDeathRender.screenX HALF_GAME_WIDTH isoToScreen
                          renderFrame npc playerScreen)
            - inject_Z fw + inject_Z mx
            == inject_Z
                 (gw - NpcDeathRender.screenX HALF_GAME_WIDTH isoToScreen
                         renderFrame npc playerScreen - fw + mx))%Q as ->.
    { push_inject_Z. ring. }
    rewrite Qfloor_Z. lia.
Qed.
End RenderProperties.

(** ** The statements on concrete clients *)

(** An idle client, with no warp pending, still sends an acceptance: the
    outbox is not what it was. *)
Lemma acceptWarp_idle_sends_counterexample :
  ¬ (Client.warpQueued idle = false →
     Client.outbox (snd (Client.acceptWarp idle)) = Client.outbox idle
     ∧ Client.warpMapId (snd (Client.acceptWarp idle))
       = Client.warpMapId idle).
Proof. intros Hclaim. destruct (Hclaim eq_refl) as [Hsent _]. discriminate Hsent. Qed.

Lemma acceptWarp_idle_witness :
  Client.warpQueued idle = false
  ∧ Client.warpMapId (snd (Client.acceptWarp idle)) = 7
  ∧ Client.warpQueued (snd (Client.acceptWarp idle)) = false
  ∧ Client.outbox (snd (Client.acceptWarp idle))
    = [WarpAccept {| WarpAcceptClientPacket.sessionId := 321;
                     WarpAcceptClientPacket.mapId := 7 |}].
Proof.
  split; [reflexivity|].
  destruct (acceptWarp_not_queued_keeps_warpMapId_but_sends idle eq_refl)
    as (Hmap & Hq & _ & Hsend & _).
  split; [exact Hmap|]. split; [exact Hq|].
  destruct (Hsend _ eq_refl) as [_ Hout]. exact Hout.
Defined.

Lemma session_scoped_witness :
  Client.sessionScoped (Client.CallRequestFile FileType.Emf 7) = true
  ∧ ∃ sent,
      Client.outbox
        (snd (Client.invoke (Client.CallRequestFile FileType.Emf 7) idle))
      = sent
      ∧ Forall (λ p, Packet_sessionId p = Some 321) sent
      ∧ length sent = 1%nat.
Proof.
  split; [reflexivity|].
  destruct (session_scoped_packets_echo_sessionId idle
              (Client.CallRequestFile FileType.Emf 7) eq_refl)
    as (sent & Hout & Hall & Hlen).
  exists sent. split; [exact Hout|]. split; [exact Hall|].
  apply Hlen. eexists. reflexivity.
Defined.

Lemma calls_before_and_after_setBus_witness :
  fst (Client.invoke (Client.CallLogin "bob" "pw") fresh) = Throw TypeError
  ∧ fst (Client.invoke (Client.CallLogin "bob" "pw") attached) = Normal tt.
Proof.
  destruct (@calls_throw_before_setBus_and_never_after sampleEolib)
    as (_ & Hnull & _ & _ & Hsome & _).
  split.
  - exact (proj1 (Hnull fresh (Client.CallLogin "bob" "pw") eq_refl)).
  - exact (proj1 (Hsome attached _ (Client.CallLogin "bob" "pw") eq_refl)).
Defined.

(** A warp pending on a client without a bus: nothing is sent and the
    warp stays pending. *)
Lemma acceptWarp_pending_without_bus_counterexample :
  ¬ (Client.warpQueued pendingWithoutBus = true →
     Client.outbox (snd (Client.acceptWarp pendingWithoutBus))
     = Client.outbox pendingWithoutBus ++
       [WarpAccept
          {| WarpAcceptClientPacket.sessionId :=
               Client.sessionId pendingWithoutBus;
             WarpAcceptClientPacket.mapId :=
               Client.warpMapId pendingWithoutBus |}]
     ∧ Client.warpQueued (snd (Client.acceptWarp pendingWithoutBus))
       = false).
Proof.
  intros Hclaim. destruct (Hclaim eq_refl) as [_ Hq]. discriminate Hq.
Qed.

Lemma acceptWarp_pending_witness :
  Client.warpQueued warpPending = true
  ∧ fst (Client.acceptWarp warpPending) = Normal tt
  ∧ Client.outbox (snd (Client.acceptWarp warpPending))
    = [WarpAccept {| WarpAcceptClientPacket.sessionId := 321;
                     WarpAcceptClientPacket.mapId := 7 |}]
  ∧ Client.warpQueued (snd (Client.acceptWarp warpPending)) = false
  ∧ fst (Client.acceptWarp pendingWithoutBus) = Throw TypeError
  ∧ Client.warpQueued (snd (Client.acceptWarp pendingWithoutBus)) = true.
Proof.
  split; [reflexivity|].
  destruct (acceptWarp_queued_sends_with_bus_and_throws_without
              warpPending eq_refl) as [Hsend _].
  destruct (Hsend _ eq_refl) as (Hr & Hout & Hq).
  destruct (acceptWarp_queued_sends_with_bus_and_throws_without
              pendingWithoutBus eq_refl) as [_ Hnull].
  destruct (Hnull eq_refl) as (Hthrow & _ & _ & Hstill).
  split; [exact Hr|]. split; [exact Hout|]. split; [exact Hq|].
  split; [exact Hthrow|exact Hstill].
Defined.

Lemma login_witness :
  fst (Client.login "bob" "pw" attached) = Normal tt
  ∧ Client.outbox (snd (Client.login "bob" "pw" attached))
    = [LoginRequest {| LoginRequestClientPacket.username := "bob";
                       LoginRequestClientPacket.password := "pw" |}]
  ∧ Client.state (snd (Client.login "bob" "pw" attached))
    = GameState.Initial.
Proof.
  destruct (login_sends_one_request_and_keeps_state attached "bob" "pw")
    as (Hsend & Hstate & _).
  destruct (Hsend _ eq_refl) as [Hr Hout].
  split; [exact Hr|]. split; [exact Hout|exact Hstate].
Defined.

Lemma requestFile_witness :
  fst (Client.requestFile FileType.Enf 2 idle) = Normal tt
  ∧ Client.outbox (snd (Client.requestFile FileType.Enf 2 idle))
    = [WelcomeAgree
         {| WelcomeAgreeClientPacket.sessionId := 321;
            WelcomeAgreeClientPacket.fileType := FileType.Enf;
            WelcomeAgreeClientPacket.fileTypeData :=
              Some (WelcomeAgreeClientPacket.FileTypeDataEnf 2) |}]
  ∧ Client.publishedEvents (snd (Client.requestFile FileType.Enf 2 idle))
    = [ClientEvents.debug "Loading NPCs.."].
Proof.
  destruct (requestFile_sends_one_agree_and_publishes_one_debug
              idle FileType.Enf 2) as (Hsend & _).
  destruct (Hsend _ eq_refl) as [Hr _].
  split; [exact Hr|]. split; reflexivity.
Defined.

(** A new client without a bus: [enterGame] sends nothing. *)
Lemma enterGame_without_bus_counterexample :
  ¬ (Client.outbox (snd (Client.enterGame fresh))
     = Client.outbox fresh ++
       [WelcomeMsg
          {| WelcomeMsgClientPacket.characterId :=
               Character.id (Client.character fresh);
             WelcomeMsgClientPacket.sessionId := Client.sessionId fresh |}]
     ∧ Client.state (snd (Client.enterGame fresh)) = Client.state fresh).
Proof. intros [Hsent _]. discriminate Hsent. Qed.

Lemma enterGame_witness :
  fst (Client.enterGame idle) = Normal tt
  ∧ Client.outbox (snd (Client.enterGame idle))
    = [WelcomeMsg {| WelcomeMsgClientPacket.characterId := 3;
                     WelcomeMsgClientPacket.sessionId := 321 |}]
  ∧ Client.state (snd (Client.enterGame idle)) = GameState.InGame
  ∧ fst (Client.enterGame fresh) = Throw TypeError.
Proof.
  destruct (enterGame_sends_with_bus_throws_without_and_keeps_state idle)
    as (Hsend & _ & Hstate & _).
  destruct (Hsend _ eq_refl) as [Hr Hout].
  destruct (enterGame_sends_with_bus_throws_without_and_keeps_state fresh)
    as (_ & Hnull & _).
  split; [exact Hr|]. split; [exact Hout|]. split; [exact Hstate|].
  exact (proj1 (Hnull eq_refl)).
Defined.

Lemma requestWarpMap_witness :
  fst (Client.requestWarpMap 7 attached) = Normal tt
  ∧ Client.outbox (snd (Client.requestWarpMap 7 attached))
    = [WarpTake {| WarpTakeClientPacket.sessionId := 0;
                   WarpTakeClientPacket.mapId := 7 |}]
  ∧ Client.mapId (snd (Client.requestWarpMap 7 attached)) = 5
  ∧ Client.warpMapId (snd (Client.requestWarpMap 7 attached)) = 0
  ∧ Client.warpQueued (snd (Client.requestWarpMap 7 attached)) = false.
Proof.
  destruct (requestWarpMap_sends_one_take_and_keeps_map_state attached 7)
    as (Hsend & HmapId & _ & Hwarp & Hq & _).
  destruct (Hsend _ eq_refl) as [Hr Hout].
  split; [exact Hr|]. split; [exact Hout|].
  split; [exact HmapId|]. split; [exact Hwarp|exact Hq].
Defined.

(** Two notifications in a row naming the unseen player 42: one fetch. *)
Lemma nearby_updates_witness :
  ∃ sent,
    Client.outbox (Discovery.deliverNearbyUpdates [42; 42] attached) = sent
    ∧ Discovery.fetchCount 42 sent = 1%nat
    ∧ 42 ∈ Client.unknownPlayerIds
             (Discovery.deliverNearbyUpdates [42; 42] attached).
Proof.
  destruct (nearby_updates_fetch_each_unseen_player_at_most_once
              attached 42 [42; 42]) as ((sent & Hout & _ & Hone) & _).
  exists sent. split; [exact Hout|].
  apply Hone.
  - reflexivity.
  - apply not_elem_of_empty.
  - eexists. reflexivity.
  - apply list_elem_of_here.
Defined.

Lemma death_ticks_witness :
  0 < 4
  ∧ NpcDeathAnimation.ticks (NpcDeathAnimation.ticked 3 sampleDeath) = 1
  ∧ NpcDeathAnimation.ticks (NpcDeathAnimation.ticked 9 sampleDeath) = 0
  ∧ (NpcDeathAnimation.globalAlpha 4
       (NpcDeathAnimation.ticked 3 sampleDeath) <= 1)%Q.
Proof.
  split; [reflexivity|].
  destruct (death_ticks_count_down_and_alpha_in_unit_interval
              4 sampleSuper eq_refl 3) as (_ & _ & _ & H3 & _ & Hle & _).
  destruct (death_ticks_count_down_and_alpha_in_unit_interval
              4 sampleSuper eq_refl 9) as (_ & _ & _ & H9 & _).
  split; [exact H3|]. split; [exact H9|exact Hle].
Defined.

(** ** The further statements on concrete data *)

Lemma operations_on_attached_bus_witness :
  Client.outbox
    (snd (Run.performAll
            [Run.OpCall (Client.CallRequestWarpMap 7);
             Run.OpEmit ClientEvents.switchMap;
             Run.OpCall Client.CallAcceptWarp] warpPending))
  = [WarpTake {| WarpTakeClientPacket.sessionId := 321;
                 WarpTakeClientPacket.mapId := 7 |};
     WarpAccept {| WarpAcceptClientPacket.sessionId := 321;
                   WarpAcceptClientPacket.mapId := 7 |}].
Proof.
  destruct (operations_on_attached_bus_send_one_packet_per_call
              [Run.OpCall (Client.CallRequestWarpMap 7);
               Run.OpEmit ClientEvents.switchMap;
               Run.OpCall Client.CallAcceptWarp] warpPending _ eq_refl)
    as [_ Hbus].
  unfold Client.outbox. rewrite Hbus. reflexivity.
Defined.

Lemma operations_without_bus_witness :
  fst (Run.performAll
         [Run.OpCall (Client.CallLogin "bob" "pw");
          Run.OpShowError "no connection" None;
          Run.OpCall Client.CallAcceptWarp] fresh)
  = [Throw TypeError; Normal tt; Throw TypeError].
Proof.
  exact (proj1 (operations_without_bus_throw_exactly_at_calls
                  [Run.OpCall (Client.CallLogin "bob" "pw");
                   Run.OpShowError "no connection" None;
                   Run.OpCall Client.CallAcceptWarp] fresh eq_refl)).
Defined.

Lemma operations_warpQueued_witness :
  Client.warpQueued
    (snd (Run.performAll
            [Run.OpCall Client.CallEnterGame;
             Run.OpCall Client.CallAcceptWarp;
             Run.OpCall (Client.CallRequestWarpMap 9)] warpPending))
  = false.
Proof.
  exact (proj2 (operations_never_set_warpQueued
                  [Run.OpCall Client.CallEnterGame;
                   Run.OpCall Client.CallAcceptWarp;
                   Run.OpCall (Client.CallRequestWarpMap 9)] warpPending)
               _ eq_refl).
Defined.

Lemma resolved_load_commutes_witness :
  snd (Run.performAll
         [Run.OpResolved (@Run.ResolvedEmf sampleEolib tt);
          Run.OpCall (Client.CallRequestFile FileType.Emf 7)] idle)
  = snd (Run.performAll
           [Run.OpCall (Client.CallRequestFile FileType.Emf 7);
            Run.OpResolved (@Run.ResolvedEmf sampleEolib tt)] idle).
Proof.
  refine (proj1 (resolved_load_commutes_with_other_operations
                   (@Run.ResolvedEmf sampleEolib tt)
                   (Run.OpCall (Client.CallRequestFile FileType.Emf 7))
                   idle _)).
  intros r' Heq. discriminate Heq.
Defined.

Lemma selectCharacter_witness :
  fst (Client.selectCharacter 3 attached) = Normal tt
  ∧ Client.outbox (snd (Client.selectCharacter 3 attached))
    = [WelcomeRequest {| WelcomeRequestClientPacket.characterId := 3 |}]
  ∧ Character.id (Client.character (snd (Client.selectCharacter 3 attached)))
    = 0.
Proof.
  destruct (selectCharacter_sends_one_request_and_keeps_character attached 3)
    as (Hsend & Hch & _).
  destruct (Hsend _ eq_refl) as [Hr Hout].
  split; [exact Hr|]. split; [exact Hout|]. rewrite Hch. reflexivity.
Defined.

Lemma tick_from_any_state_witness :
  NpcDeathAnimation.ticks (NpcDeathAnimation.ticked 2 sampleDeath) = 2
  ∧ NpcDeathAnimation.ticks (NpcDeathAnimation.tick sampleDeath) ≤ 4
  ∧ NpcDeathAnimation.ticks (NpcDeathAnimation.ticked 9 sampleDeath) = 0.
Proof.
  assert (- 2 ^ 53 ≤ NpcDeathAnimation.ticks sampleDeath ≤ 2 ^ 53) as Hrange
    by (split; discriminate).
  destruct (tick_counts_down_from_any_safe_integer sampleDeath 2 Hrange)
    as (_ & Hle & Hn & _).
  destruct (tick_counts_down_from_any_safe_integer sampleDeath 9 Hrange)
    as (_ & _ & Hn9 & _).
  split; [exact (Hn ltac:(discriminate))|].
  split; [exact (Hle ltac:(discriminate))|].
  exact (Hn9 ltac:(discriminate)).
Defined.

Lemma fade_witness :
  (0 < NpcDeathAnimation.globalAlpha 4
         (NpcDeathAnimation.ticked 3 sampleDeath))%Q
  ∧ (NpcDeathAnimation.globalAlpha 4
       (NpcDeathAnimation.ticked 4 sampleDeath) == 0)%Q.
Proof.
  destruct (fade_lasts_exactly_NPC_DEATH_TICKS 4 sampleSuper 3 eq_refl)
    as (_ & Hbefore & _).
  destruct (fade_lasts_exactly_NPC_DEATH_TICKS 4 sampleSuper 4 eq_refl)
    as (_ & _ & _ & Hafter).
  split.
  - exact (proj1 (Hbefore eq_refl)).
  - exact (Hafter ltac:(discriminate)).
Defined.

(** One graphic, facing down and facing left: neither is mirrored, and the
    bitmaps differ. *)
Lemma bitmap_and_mirroring_witness :
  NpcDeathRender.mirrored npcFacingDown = NpcDeathRender.mirrored npcFacingLeft
  ∧ NpcDeathRender.bitmapId 7 npcFacingDown
    ≠ NpcDeathRender.bitmapId 7 npcFacingLeft
  ∧ (NpcDeathRender.bitmapId 7 sampleNpc
     = NpcDeathRender.bitmapId 7
         {| NpcDeathRender.index := 9;
            NpcDeathRender.coords := {| Coords_x := 0; Coords_y := 0 |};
            NpcDeathRender.direction := Direction.Right |}).
Proof.
  assert (- 2 ^ 47 ≤ 7 ≤ 2 ^ 47) as Hrange by (split; discriminate).
  split; [reflexivity|]. split.
  - intros Hid.
    destruct (proj1 (bitmap_and_mirroring_determine_graphic_and_direction
                       7 7 npcFacingDown npcFacingLeft Hrange Hrange)
                    (conj Hid eq_refl)) as [_ Hdir].
    discriminate Hdir.
  - exact (proj1 (proj2 (bitmap_and_mirroring_determine_graphic_and_direction
                           7 7 sampleNpc _ Hrange Hrange)
                        (conj eq_refl eq_refl))).
Defined.

Lemma whole_pixel_geometry_witness :
  NpcDeathRender.screenX 320 sampleIsoToScreen sampleFrame sampleNpc
    samplePlayerScreen = 357
  ∧ NpcDeathRender.drawY 240 sampleIsoToScreen sampleFrame sampleNpc
      sampleMeta samplePlayerScreen sampleDeath = 251
  ∧ 640 - (NpcDeathRender.drawX 640 320 sampleIsoToScreen sampleFrame
             sampleNpc sampleMeta samplePlayerScreen sampleDeath + 33)
    = 357 - 4.
Proof.
  destruct (whole_pixel_geometry 640 320 240 unit tt unit
              (λ _ _, None) (λ _ _, sampleFrame) sampleIsoToScreen
              64 64 10 20 320 240 640 33 50 4 6
              sampleFrame sampleNpc sampleMeta samplePlayerScreen sampleDeath
              eq_refl eq_refl eq_refl eq_refl eq_refl eq_refl eq_refl
              eq_refl eq_refl eq_refl eq_refl)
    as (HX & HY & _ & Hmirrored).
  split; [exact HX|]. split; [exact HY|].
  rewrite (Hmirrored eq_refl), HX. reflexivity.
Defined.
